(** * Card and text recognition pipeline of poker_assistant.ocr

    Shallow embedding of [card_recognition.py] and [text_recognition.py].

    Modelling conventions:
    - Python [float] values are modelled as exact rationals [Q]; where the
      rounding of binary floating point matters it is said so next to the
      definition.
    - Python [str] values are modelled as [string] (one [ascii] per
      character); the inputs used below are ASCII.
    - Python [dict] values whose insertion order matters (sorting ties,
      iteration order) are association lists in insertion order.
    - Image processing (template matching, OCR engine, blank-zone detection)
      enters the models as the inputs the Python code receives from it. *)

From Stdlib Require Import List String Ascii Bool ZArith QArith Lia.
From Stdlib Require Import Permutation Sorted RelationClasses Qabs Qround.
Import ListNotations.
Open Scope string_scope.

(** ** Generic helpers: Python string operations and comparisons *)

Definition Qltb (x y : Q) : bool := negb (Qle_bool y x).

(** Python's [max(a, b)] on numbers: keeps [a] unless [b > a]. *)
Definition py_max (a b : Q) : Q := if Qltb a b then b else a.

Definition is_digit (c : ascii) : bool :=
  let n := nat_of_ascii c in ((48 <=? n) && (n <=? 57))%nat.

Definition ascii_lower (c : ascii) : ascii :=
  let n := nat_of_ascii c in
  if ((65 <=? n) && (n <=? 90))%nat then ascii_of_nat (n + 32)%nat else c.

(** [str.lower()] on ASCII strings. *)
Fixpoint lower (s : string) : string :=
  match s with
  | EmptyString => EmptyString
  | String c s' => String (ascii_lower c) (lower s')
  end.

(** [sub in s] *)
Fixpoint contains (sub s : string) : bool :=
  match s with
  | EmptyString => String.eqb sub EmptyString
  | String _ s' => String.prefix sub s || contains sub s'
  end.

(** [s.split(sep)] for a one-character separator. *)
Fixpoint split_char (sep : ascii) (s : string) : list string :=
  match s with
  | EmptyString => [EmptyString]
  | String c s' =>
      if Ascii.eqb c sep then EmptyString :: split_char sep s'
      else match split_char sep s' with
           | [] => [String c EmptyString]
           | w :: ws => String c w :: ws
           end
  end.

(** [s.split(sep)[0]] *)
Definition split_first (sep : ascii) (s : string) : string :=
  hd EmptyString (split_char sep s).

(** [s.split(sep)[-1]] for a non-empty separator that cannot overlap
    itself (such as ["card"] or ["_"]): the text after the last occurrence
    of [sep], or [s] itself when [sep] does not occur. *)
Fixpoint last_piece (sep s : string) : option string :=
  match s with
  | EmptyString => None
  | String _ s' =>
      match last_piece sep s' with
      | Some r => Some r
      | None =>
          if String.prefix sep s
          then Some (substring (String.length sep) (String.length s) s)
          else None
      end
  end.

Definition split_last (sep s : string) : string :=
  match last_piece sep s with Some r => r | None => s end.

(** Python truthiness of an [Optional[str]]. *)
Definition truthy_str (o : option string) : bool :=
  match o with
  | Some s => negb (String.eqb s EmptyString)
  | None => false
  end.

(** ** Card results *)

(** Score maps [Dict[str, float]], in insertion order. *)
Definition scoremap := list (string * Q).

(** [@dataclass CardResult] with its field defaults. *)
Record CardResult := mkCardResult {
  rank : option string;
  suit : option string;
  rank_confidence : Q;
  suit_confidence : Q;
  combined_confidence : Q;
  is_uncertain : bool;
  rank_scores : scoremap;
  suit_scores : scoremap
}.

(** [CardResult()] *)
Definition default_card : CardResult :=
  mkCardResult None None 0 0 0 true [] [].

Inductive GameState := PREFLOP | FLOP | TURN | RIVER.

Definition GameState_eqb (a b : GameState) : bool :=
  match a, b with
  | PREFLOP, PREFLOP | FLOP, FLOP | TURN, TURN | RIVER, RIVER => true
  | _, _ => false
  end.

(** The part of the pipeline state that [_update_game_state] touches. *)
Record StreetState := mkStreetState {
  game_state : GameState;
  last_state_change : Q
}.

(** [sum(1 for card in board_cards if card.rank and card.suit)] *)
Definition visible_cards (board : list CardResult) : nat :=
  List.length (filter (fun c => truthy_str (rank c) && truthy_str (suit c)) board).

(** [CardRecognitionPipeline._update_game_state]; [now] is [time.time()]. *)
Definition _update_game_state (st : StreetState) (now : Q)
    (board_cards : list CardResult) : StreetState :=
  let n := visible_cards board_cards in
  let new_state :=
    match n with
    | O => PREFLOP
    | 3%nat => FLOP
    | 4%nat => TURN
    | 5%nat => RIVER
    | _ => game_state st
    end in
  if negb (GameState_eqb new_state (game_state st))
  then mkStreetState new_state now
  else st.

(** Association-list view of a Python [dict]: [d.get(k)] and [d[k] = v]
    (an existing key keeps its position, a new key is appended). *)
Fixpoint alookup {V} (k : string) (d : list (string * V)) : option V :=
  match d with
  | [] => None
  | (k', v) :: d' => if String.eqb k k' then Some v else alookup k d'
  end.

Fixpoint aset {V} (k : string) (v : V) (d : list (string * V)) : list (string * V) :=
  match d with
  | [] => [(k, v)]
  | (k', v') :: d' => if String.eqb k k' then (k, v) :: d' else (k', v') :: aset k v d'
  end.

(** Python [lst[i] = x] for an index known to be in range. *)
Fixpoint set_nth {A} (i : nat) (x : A) (l : list A) : list A :=
  match l, i with
  | [], _ => []
  | _ :: l', O => x :: l'
  | y :: l', S i' => y :: set_nth i' x l'
  end.

(** ** Template scores: family aggregation and top-1 selection *)

(** [CardRecognitionPipeline._aggregate_family_scores] *)
Definition _aggregate_family_scores (scores : scoremap) : scoremap :=
  fold_left
    (fun fam '(label, s) =>
       let main := split_first "_"%char label in
       let prev := match alookup main fam with Some v => v | None => 0 end in
       aset main (py_max prev s) fam)
    scores [].

(** [sorted(items, key=lambda kv: kv[1], reverse=True)]: Python's sort is
    stable, and [reverse=True] keeps equal keys in their original order, so
    the result is the stable descending insertion sort below. *)
Fixpoint insert_desc (x : string * Q) (l : scoremap) : scoremap :=
  match l with
  | [] => [x]
  | y :: l' => if Qltb (snd y) (snd x) then x :: y :: l' else y :: insert_desc x l'
  end.

Definition sort_desc (l : scoremap) : scoremap :=
  fold_left (fun acc x => insert_desc x acc) l [].

(** [CardRecognitionPipeline._choose_family_with_margin] *)
Definition _choose_family_with_margin (fam_scores : scoremap)
    : option string * Q * Q :=
  match sort_desc fam_scores with
  | [] => (None, 0, 0)
  | [(l, s)] => (Some l, s, s)
  | (l1, s1) :: (_, s2) :: _ => (Some l1, s1, py_max 0 (s1 - s2))
  end.

(** ** Validity gates *)

(** Rounding of a rational to the nearest IEEE 754 binary64 number (53-bit
    significand, ties to even), for values in the normal range: the value
    Python gives a float literal, and the result of a float subtraction of
    two such values.  With [a / b] in [[2^(k-1), 2^(k+1))], the exponent [e]
    is chosen so that [a / b / 2^e] lies in [[2^52, 2^53)]. *)
Definition b64_scale (a b e : Z) : Z * Z :=
  if (0 <=? e)%Z then (a, (b * 2 ^ e)%Z) else ((a * 2 ^ (- e))%Z, b).

Definition b64 (q : Q) : Q :=
  let a := Z.abs (Qnum q) in
  let b := Zpos (Qden q) in
  if (a =? 0)%Z then 0 else
  let k := (Z.log2 a - Z.log2 b)%Z in
  let e := if (fst (b64_scale a b (k - 52)) / snd (b64_scale a b (k - 52)) <? 2 ^ 52)%Z
           then (k - 53)%Z else (k - 52)%Z in
  let '(num, den) := b64_scale a b e in
  let m0 := (num / den)%Z in
  let r := (num - m0 * den)%Z in
  let m := if ((den <? 2 * r) || ((2 * r =? den) && Z.odd m0))%Z then (m0 + 1)%Z else m0 in
  let sm := if (Qnum q <? 0)%Z then (- m)%Z else m in
  if (0 <=? e)%Z then Qmake (sm * 2 ^ e) 1 else Qmake sm (Z.to_pos (2 ^ (- e))).

(** Python's [x - y] on floats. *)
Definition fsub (x y : Q) : Q := b64 (x - y).

Definition min_top1_score : Q := b64 (35 # 100).
Definition min_top1_margin : Q := b64 (7 # 100).
Definition confidence_threshold : Q := 3 # 10.
Definition confidence_alpha : Q := 2.
Definition confidence_beta : Q := 3 # 2.

(** Step 4 of [recognize_cards]: [(rank_valid, suit_valid)].  The literals
    and the subtractions are binary64 values, as in the Python code. *)
Definition card_gates (is_board_card : bool) (r_top1 r_margin s_top1 s_margin : Q)
    : bool * bool :=
  if is_board_card then
    (Qle_bool (py_max (b64 (12 # 100)) (fsub min_top1_score (b64 (25 # 100)))) r_top1
       && Qle_bool (py_max (b64 (1 # 100)) (fsub min_top1_margin (b64 (8 # 100)))) r_margin,
     Qle_bool (py_max (b64 (12 # 100)) (fsub min_top1_score (b64 (25 # 100)))) s_top1
       && Qle_bool (py_max (b64 (1 # 100)) (fsub min_top1_margin (b64 (8 # 100)))) s_margin)
  else
    (Qle_bool (py_max (b64 (15 # 100)) (fsub min_top1_score (b64 (20 # 100)))) r_top1
       && Qle_bool (py_max (b64 (2 # 100)) (fsub min_top1_margin (b64 (5 # 100)))) r_margin,
     Qle_bool (py_max (b64 (15 # 100)) (fsub min_top1_score (b64 (20 # 100)))) s_top1
       && Qle_bool (py_max (b64 (1 # 100)) (fsub min_top1_margin (b64 (6 # 100)))) s_margin).

(** [CardRecognitionPipeline._format_card_label] *)
Definition rank_mapping : list (string * string) :=
  map (fun r => (r, r)) ["A"; "K"; "Q"; "J"; "T"; "9"; "8"; "7"; "6"; "5"; "4"; "3"; "2"].
Definition suit_mapping : list (string * string) :=
  map (fun r => (r, r)) ["h"; "d"; "c"; "s"].

Definition _format_card_label (template_name : string) : string :=
  if String.eqb template_name EmptyString then EmptyString
  else
    let main_part := split_first "_"%char template_name in
    match alookup main_part rank_mapping with
    | Some v => v
    | None => match alookup main_part suit_mapping with
              | Some v => v
              | None => main_part
              end
    end.

(** ** Python's [int(str)] and [str.strip()] on ASCII text *)

Definition is_py_space (c : ascii) : bool :=
  let n := nat_of_ascii c in ((9 <=? n) && (n <=? 13) || (28 <=? n) && (n <=? 32))%nat.

Fixpoint drop_spaces (l : list ascii) : list ascii :=
  match l with
  | c :: l' => if is_py_space c then drop_spaces l' else l
  | [] => []
  end.

(** [s.strip()] *)
Definition strip (s : string) : string :=
  string_of_list_ascii (rev (drop_spaces (rev (drop_spaces (list_ascii_of_string s))))).

Definition digit_value (c : ascii) : Z := Z.of_nat (nat_of_ascii c - 48).

(** Decimal digits, single underscores allowed between digits. *)
Fixpoint parse_digits (s : string) (acc : Z) (need_digit : bool) : option Z :=
  match s with
  | EmptyString => if need_digit then None else Some acc
  | String c s' =>
      if is_digit c then parse_digits s' (acc * 10 + digit_value c) false
      else if Ascii.eqb c "_"%char && negb need_digit then parse_digits s' acc true
      else None
  end.

(** [int(s)]; [None] is the [ValueError] it raises. *)
Definition py_int (s : string) : option Z :=
  match strip s with
  | String c s' =>
      if Ascii.eqb c "-"%char then option_map Z.opp (parse_digits s' 0 true)
      else if Ascii.eqb c "+"%char then parse_digits s' 0 true
      else parse_digits (String c s') 0 true
  | EmptyString => None
  end.

(** ** One card slot of [recognize_cards] *)

(** What [_extract_rank_suit_zones], [_is_blank_zone] and
    [_template_matching_multi_variants] hand to the loop body of
    [recognize_cards] for one extracted card ROI. *)
Inductive card_zones :=
  | ZonesMissing
      (** [rank_zone is None or suit_zone is None] (no zone configuration
          for the card and no [default] entry, or a sub-zone missing). *)
  | Zones (rank_blank suit_blank : bool) (rank_scores suit_scores : scoremap).

Inductive slot := HeroSlot (i : nat) | BoardSlot (i : nat).

(** The slot-assignment part of the loop body of [recognize_cards]. *)
Definition card_slot (card_name : string) : option slot :=
  let ln := lower card_name in
  if contains "hero" ln then
    if contains "left" ln then Some (HeroSlot 0)
    else if contains "right" ln then Some (HeroSlot 1)
    else None
  else if contains "board" ln then
    let piece := if contains "card" ln then split_last "card" card_name
                 else split_last "_" card_name in
    match py_int piece with
    | Some k =>
        let card_index := (k - 1)%Z in
        if ((0 <=? card_index) && (card_index <? 5))%Z
        then Some (BoardSlot (Z.to_nat card_index)) else None
    | None => None
    end
  else None.

(** [RecognitionFrame]; the text results are those of the text pipeline. *)
Record TextResult := mkTextResult {
  text : string;
  confidence : Q;
  normalized_value : option (Q + string);
  is_valid : bool;
  raw_ocr_text : string
}.

Record RecognitionFrame := mkRecognitionFrame {
  timestamp : Q;
  hero_cards : list CardResult;
  board_cards : list CardResult;
  frame_game_state : GameState;
  text_results : list (string * TextResult)
}.

Section Cards.

(** [np.exp], used only through the confidence sigmoid. *)
Variable exp : Q -> Q.

(** [_sigmoid_conf] *)
Definition _sigmoid_conf (top1 margin : Q) : Q :=
  1 / (1 + exp (- (confidence_alpha * top1 + confidence_beta * margin))).

(** Loop body of [recognize_cards] up to the result construction;
    [None] is the [continue] of a skipped slot. *)
Definition process_card (card_name : string) (z : card_zones) : option CardResult :=
  match z with
  | ZonesMissing => None
  | Zones rank_blank suit_blank rank_scores suit_scores =>
      if rank_blank && suit_blank then None
      else
        let rank_fam := _aggregate_family_scores rank_scores in
        let suit_fam := _aggregate_family_scores suit_scores in
        let '(rank_main, r_top1, r_margin) := _choose_family_with_margin rank_fam in
        let '(suit_main, s_top1, s_margin) := _choose_family_with_margin suit_fam in
        let is_board_card := contains "board" (lower card_name) in
        let '(rank_valid, suit_valid) :=
          card_gates is_board_card r_top1 r_margin s_top1 s_margin in
        let rank_confidence :=
          if truthy_str rank_main then _sigmoid_conf r_top1 r_margin else 0 in
        let suit_confidence :=
          if truthy_str suit_main then _sigmoid_conf s_top1 s_margin else 0 in
        let combined_confidence := (rank_confidence + suit_confidence) / 2 in
        let formatted_rank :=
          if rank_valid && truthy_str rank_main
          then option_map _format_card_label rank_main else None in
        let formatted_suit :=
          if suit_valid && truthy_str suit_main
          then option_map _format_card_label suit_main else None in
        Some (mkCardResult formatted_rank formatted_suit
                rank_confidence suit_confidence combined_confidence
                (Qltb combined_confidence confidence_threshold
                 || negb rank_valid || negb suit_valid)
                rank_scores suit_scores)
  end.

(** Storing a result in its slot. *)
Definition place_card (cards : list CardResult * list CardResult)
    (card_name : string) (result : CardResult) : list CardResult * list CardResult :=
  let '(hero, board) := cards in
  match card_slot card_name with
  | Some (HeroSlot i) => (set_nth i result hero, board)
  | Some (BoardSlot i) => (hero, set_nth i result board)
  | None => (hero, board)
  end.

(** The [for card_name, card_roi in card_rois.items()] loop. *)
Definition card_loop (card_rois : list (string * card_zones)) : list CardResult * list CardResult :=
  fold_left
    (fun acc '(card_name, z) =>
       match process_card card_name z with
       | Some result => place_card acc card_name result
       | None => acc
       end)
    card_rois (repeat default_card 2, repeat default_card 5).

(** [CardRecognitionPipeline.recognize_cards]: [card_rois] is what
    [_extract_card_rois] returned (names with a non-empty crop), [now] is
    [time.time()], [texts] the result of [text_pipeline.recognize_text].
    The [deepcopy] of the slot lists is the identity here, and the
    change-detection hash, which does not feed the frame, is left out. *)
Definition recognize_cards (st : StreetState) (now : Q)
    (card_rois : list (string * card_zones)) (texts : list (string * TextResult))
    : RecognitionFrame * StreetState :=
  let '(hero_cards, board_cards) := card_loop card_rois in
  let st' := _update_game_state st now board_cards in
  (mkRecognitionFrame now hero_cards board_cards (game_state st') texts, st').

End Cards.

(** ** Text recognition: pot extraction *)

(** [self.character_corrections], in dict order. *)
Definition character_corrections : list (ascii * ascii) :=
  [("O", "0"); ("o", "0"); ("I", "1"); ("l", "1"); ("S", "5"); ("s", "5");
   ("B", "8"); ("b", "8"); ("G", "6"); ("g", "6")]%char.

(** [s.replace(wrong, correct)] for one-character strings. *)
Definition replace_char (wrong correct : ascii) (s : list ascii) : list ascii :=
  map (fun c => if Ascii.eqb c wrong then correct else c) s.

(** [_apply_character_corrections] *)
Definition _apply_character_corrections (s : list ascii) : list ascii :=
  fold_left (fun acc '(w, c) => replace_char w c acc) character_corrections s.

(** The class [[^\d.,kKmM€]] of [extract_pot_value]'s [re.sub]
    ([€] is not an ASCII character and does not occur in the model). *)
Definition pot_kept (c : ascii) : bool :=
  is_digit c || existsb (Ascii.eqb c) [","; "."; "k"; "K"; "m"; "M"]%char.

(** The longest prefix of digits and the rest. *)
Fixpoint span_digits (s : list ascii) : list ascii * list ascii :=
  match s with
  | c :: s' => if is_digit c then let '(d, r) := span_digits s' in (c :: d, r) else ([], s)
  | [] => ([], [])
  end.

Definition all_digits (s : list ascii) : bool := forallb is_digit s.

(** [_fix_common_pot_errors]: the four anchored patterns in order
    ([^7(\d+),(\d+)$] twice, [^0,(\d{2})\d+$], [^0,(\d{2})$]). *)
Definition _fix_common_pot_errors (s : list ascii) : list ascii :=
  let pat7 :=
    match s with
    | "7"%char :: t =>
        let '(d1, r) := span_digits t in
        match r with
        | ","%char :: d2 =>
            if negb (List.length d1 =? 0)%nat && negb (List.length d2 =? 0)%nat
               && all_digits d2
            then Some ("0"%char :: ","%char :: d2) else None
        | _ => None
        end
    | _ => None
    end in
  match pat7 with
  | Some r => r
  | None =>
      match s with
      | "0"%char :: ","%char :: a :: b :: t =>
          if is_digit a && is_digit b && all_digits t
          then "0"%char :: ","%char :: a :: b :: [] else s
      | _ => s
      end
  end.

(** One attempt of [(\d+[.,]\d+)] at the head of [s]: the match and what
    follows it.  Greedy [\d+] cannot give back digits usefully here, since
    a shorter run is followed by a digit, not by [.] or [,]. *)
Definition match_decimal (s : list ascii) : option (list ascii * list ascii) :=
  let '(d1, r) := span_digits s in
  match d1, r with
  | _ :: _, sep :: r' =>
      if Ascii.eqb sep "."%char || Ascii.eqb sep ","%char then
        match span_digits r' with
        | ((_ :: _) as d2, r'') => Some (app d1 (sep :: d2), r'')
        | _ => None
        end
      else None
  | _, _ => None
  end.

Definition match_integer (s : list ascii) : option (list ascii * list ascii) :=
  match span_digits s with
  | ((_ :: _) as d, r) => Some (d, r)
  | _ => None
  end.

(** [re.findall] for a pattern given by its head matcher; [fuel] bounds
    the scan (the length of the text suffices). *)
Fixpoint findall (m : list ascii -> option (list ascii * list ascii))
    (fuel : nat) (s : list ascii) : list (list ascii) :=
  match fuel with
  | O => []
  | S fuel' =>
      match s with
      | [] => []
      | _ :: s' =>
          match m s with
          | Some (found, rest) => found :: findall m fuel' rest
          | None => findall m fuel' s'
          end
      end
  end.

(** [float(x)] on [\d+] or [\d+\.\d+] text. *)
Fixpoint digits_Z (d : list ascii) (acc : Z) : Z :=
  match d with
  | c :: d' => digits_Z d' (acc * 10 + digit_value c)
  | [] => acc
  end.

Definition py_float_simple (s : list ascii) : Q :=
  let '(ip, r) := span_digits s in
  match r with
  | _ :: fp =>
      inject_Z (digits_Z ip 0)
      + Qmake (digits_Z fp 0) (Pos.of_nat (10 ^ List.length fp))
  | [] => inject_Z (digits_Z ip 0)
  end.

(** [TextRecognitionPipeline.extract_pot_value] *)
Definition extract_pot_value (txt : string) : Q :=
  let s := list_ascii_of_string txt in
  match s with
  | [] => 0
  | _ =>
      let cleaned := map (fun c => if pot_kept c then c else " "%char) s in
      let cleaned := _apply_character_corrections cleaned in
      let corrected_text := _fix_common_pot_errors cleaned in
      let fuel := List.length corrected_text in
      match rev (findall match_decimal fuel corrected_text) with
      | last_decimal :: _ =>
          py_float_simple (replace_char ","%char "."%char last_decimal)
      | [] =>
          match rev (findall match_integer fuel corrected_text) with
          | last_integer :: _ => py_float_simple last_integer
          | [] => 0
          end
      end
  end.

(** ** Text recognition: temporal stabilisation and the per-zone loop *)

(** The per-zone state of [TextRecognitionPipeline] read by
    [recognize_text] ([ema_values] and [stable_values]; the
    [last_update_times] written next to them are never read there). *)
Record TextState := mkTextState {
  ema_values : list (string * option Q);
  stable_values : list (string * option Q)
}.

(** [_init_ema_buffers] *)
Definition text_zone_names : list string := ["pot_combined"; "hero_stack"; "to_call"; "hero_name"].
Definition init_text_state : TextState :=
  mkTextState (map (fun k => (k, None)) text_zone_names) (map (fun k => (k, None)) text_zone_names).

(** State and exception monad: [None] is a raised exception; the state
    reached when it was raised is kept, as Python keeps the mutations made
    before a [raise]. *)
Definition M (A : Type) : Type := TextState -> option A * TextState.

Definition ret {A} (a : A) : M A := fun st => (Some a, st).
Definition raise {A} : M A := fun st => (None, st).
Definition bind {A B} (m : M A) (f : A -> M B) : M B :=
  fun st => match m st with
            | (Some a, st') => f a st'
            | (None, st') => (None, st')
            end.
Definition get : M TextState := fun st => (Some st, st).
Definition put (st : TextState) : M unit := fun _ => (Some tt, st).

Notation "x <- m ;; k" := (bind m (fun x => k)) (at level 61, m at next level, right associativity).

(** [d[k]] with its [KeyError]. *)
Definition get_item (k : string) (d : list (string * option Q)) : M (option Q) :=
  match alookup k d with Some v => ret v | None => raise end.

Definition max_value_change : Q := 3 # 10.
Definition variation_threshold : Q := 2 # 10.
Definition ema_alpha : Q := 15 # 100.
Definition min_confidence : Q := 1 # 10.

(** [TextRecognitionPipeline._is_value_change_valid] *)
Definition _is_value_change_valid (element_name : string) (new_value : Q) : M bool :=
  st <- get ;;
  match alookup element_name (ema_values st) with
  | None | Some None => ret true
  | Some (Some old_value) =>
      if Qeq_bool old_value 0 then ret true
      else
        let denom := py_max (1 # 1000000000) (Qabs old_value) in
        let relative_change := Qabs (new_value - old_value) / denom in
        ret (Qle_bool relative_change max_value_change)
  end.

(** Python's [a or b] for [a : Optional[float]], [b : float]. *)
Definition py_or (a : option Q) (b : Q) : Q :=
  match a with
  | Some x => if Qeq_bool x 0 then b else x
  | None => b
  end.

(** [TextRecognitionPipeline._apply_ema_filter] *)
Definition _apply_ema_filter (element_name : string) (new_value : Q) : M Q :=
  st <- get ;;
  e <- get_item element_name (ema_values st) ;;
  let jump :=
    match e with
    | Some v => Qltb 0 v && Qltb variation_threshold (Qabs (new_value - v) / v)
    | None => false
    end in
  if jump then
    s <- get_item element_name (stable_values st) ;;
    ret (py_or s new_value)
  else
    let ema := match e with
               | None => new_value
               | Some v => ema_alpha * new_value + (1 - ema_alpha) * v
               end in
    _ <- put (mkTextState (aset element_name (Some ema) (ema_values st))
                          (aset element_name (Some ema) (stable_values st))) ;;
    ret ema.

(** Lines 657-675 of [recognize_text]: the numeric filtering step. *)
Definition filter_value (element_name : string) (normalized : option (Q + string))
    : M (option (Q + string)) :=
  match normalized with
  | Some (inl v) =>
      ok <- _is_value_change_valid element_name v ;;
      if ok then
        fv <- _apply_ema_filter element_name v ;;
        ret (Some (inl fv))
      else ret (Some (inl v))
  | other => ret other
  end.

(** An OCR detection [(bbox, text, confidence)] without its box. *)
Definition detection := (string * Q)%type.

(** What the zone loop body receives from [_preprocess_image] and
    [reader.readtext]: either one of them raised, or the detections on the
    original crop and on the preprocessed crop ([zone_small] is
    [zone.shape[0] < 50]; the original crop is only read when it holds). *)
Inductive zone_input :=
  | ZoneRaises
  | ZoneRead (zone_small : bool) (ocr_orig ocr_proc : list detection).

Definition best_conf (l : list detection) : Q :=
  fold_left (fun m d => py_max m (snd d)) (tl l) (match l with d :: _ => snd d | [] => 0 end).

(** The choice of OCR results in the loop body. *)
Definition choose_ocr (small : bool) (orig proc : list detection) : list detection :=
  if small then
    match orig, proc with
    | _ :: _, _ :: _ => if Qltb (best_conf proc) (best_conf orig) then orig else proc
    | [], _ => proc
    | _, _ => orig
    end
  else proc.

(** The detection loop: [(combined_text, total_confidence, valid_detections)]. *)
Definition combine_detections (l : list detection) : string * Q * nat :=
  fold_left
    (fun '(txt, tot, n) '(t, c) =>
       if Qltb min_confidence c then (txt ++ t ++ " ", tot + c, S n) else (txt, tot, n))
    l ("", 0, O).

(** [TextResult(text="", confidence=0.0, ...)] *)
Definition empty_text_result : TextResult := mkTextResult "" 0 None false "".

Section TextPipeline.

(** [_normalize_name] and [_normalize_money_value] (value part). *)
Variable normalize_name : string -> option string.
Variable normalize_money : string -> option Q.

(** The normalisation by zone kind. *)
Definition normalize_zone (element_name combined_text : string) : option (Q + string) :=
  if contains "name" (lower element_name) then option_map inr (normalize_name combined_text)
  else if String.eqb (lower element_name) "pot_combined"
  then Some (inl (extract_pot_value combined_text))
  else option_map inl (normalize_money combined_text).

(** The body of the [try] block of the zone loop of [recognize_text]. *)
Definition process_zone (element_name : string) (z : zone_input) : M TextResult :=
  match z with
  | ZoneRaises => raise
  | ZoneRead small orig proc =>
      let ocr_results := choose_ocr small orig proc in
      let '(combined, total_confidence, valid_detections) := combine_detections ocr_results in
      match valid_detections with
      | O => ret empty_text_result
      | S _ =>
          let avg_confidence := total_confidence / inject_Z (Z.of_nat valid_detections) in
          let combined_text := strip combined in
          let normalized_value := normalize_zone element_name combined_text in
          filtered_value <- filter_value element_name normalized_value ;;
          let valid :=
            Qltb min_confidence avg_confidence &&
            match filtered_value with
            | None => false
            | Some (inr _) => true
            | Some (inl v) => Qle_bool 0 v && Qltb v 1000000
            end in
          ret (mkTextResult combined_text avg_confidence filtered_value valid combined_text)
      end
  end.

(** [try: ... except Exception: results[name] = TextResult(...)] *)
Definition zone_step (results : list (string * TextResult)) (element_name : string)
    (z : zone_input) : M (list (string * TextResult)) :=
  fun st =>
    match process_zone element_name z st with
    | (Some r, st') => (Some (aset element_name r results), st')
    | (None, st') => (Some (aset element_name empty_text_result results), st')
    end.

Fixpoint zone_loop (results : list (string * TextResult))
    (zones : list (string * zone_input)) : M (list (string * TextResult)) :=
  match zones with
  | [] => ret results
  | (n, z) :: zones' => r <- zone_step results n z ;; zone_loop r zones'
  end.

(** [TextRecognitionPipeline.recognize_text]: [text_zones] is what
    [_extract_text_zones] returned; [reader_available] says whether
    [_ensure_reader] can load the OCR engine (it raises otherwise). *)
Definition recognize_text (reader_available : bool)
    (text_zones : list (string * zone_input)) : M (list (string * TextResult)) :=
  match text_zones with
  | [] => ret []
  | _ => if reader_available then zone_loop [] text_zones else raise
  end.

End TextPipeline.

(** ** Canonical card preprocessing *)

(** A grayscale [uint8] image as its rows. *)
Definition image := list (list Z).

Definition img_height (img : image) : Z := Z.of_nat (List.length img).
Definition img_width (img : image) : Z := Z.of_nat (List.length (hd [] img)).

Definition pixel (img : image) (y x : Z) : Z :=
  nth (Z.to_nat x) (nth (Z.to_nat y) img []) 0%Z.

Definition zrange (n : Z) : list Z := map Z.of_nat (seq 0%nat (Z.to_nat n)).

(** OpenCV's [BORDER_REFLECT_101] index mapping (the default border). *)
Definition reflect101 (p len : Z) : Z :=
  if (len =? 1)%Z then 0
  else if (p <? 0)%Z then (- p)%Z
  else if (len <=? p)%Z then (2 * len - p - 2)%Z
  else p.

(** [cv2.GaussianBlur(img, (3, 3), 0)] on [uint8]: with [sigma = 0] and a
    3-tap kernel OpenCV uses the fixed kernel [1/4, 1/2, 1/4] in both
    directions; the 8-bit path is bit-exact fixed point, rounding the
    exact sum to nearest with ties upward. *)
Definition kernel3 (d : Z) : Z := if (d =? 0)%Z then 2 else 1.

Definition blur_pixel (img : image) (h w y x : Z) : Z :=
  let acc :=
    fold_left (fun a dy =>
      fold_left (fun a' dx =>
        (a' + kernel3 dy * kernel3 dx
              * pixel img (reflect101 (y + dy) h) (reflect101 (x + dx) w))%Z)
        [-1; 0; 1]%Z a)
      [-1; 0; 1]%Z 0%Z in
  ((acc + 8) / 16)%Z.

Definition gaussian_blur3 (img : image) : image :=
  let h := img_height img in
  let w := img_width img in
  map (fun y => map (fun x => blur_pixel img h w y x) (zrange w)) (zrange h).

(** [cv2.resize(img, (dw, dh))] with the default [INTER_LINEAR].  OpenCV
    copies the image when its size already is [(dw, dh)]; otherwise the
    bilinear weights are taken exactly and the result rounded to nearest.
    OpenCV computes these weights in 11-bit fixed point, so the pixel
    values of a rescaled image can differ from OpenCV's by rounding; the
    properties below use only the output size and the copy.  An empty
    image is refused ([None]). *)
Definition lin_coord (d sn dn : Z) : Z * Q :=
  let f := ((inject_Z (2 * d + 1) * inject_Z sn) / inject_Z (2 * dn) - (1 # 2))%Q in
  let s0 := Qfloor f in
  if (s0 <? 0)%Z then (0%Z, 0%Q)
  else if (sn - 1 <=? s0)%Z then ((sn - 1)%Z, 0%Q)
  else (s0, (f - inject_Z s0)%Q).

Definition round_half_up (q : Q) : Z := Qfloor (q + (1 # 2)).

Definition resize (img : image) (dw dh : Z) : option image :=
  let h := img_height img in
  let w := img_width img in
  if ((h =? 0) || (w =? 0))%Z then None
  else if ((h =? dh) && (w =? dw))%Z then Some img
  else
    Some (map (fun y =>
      let '(sy, ay) := lin_coord y h dh in
      map (fun x =>
        let '(sx, ax) := lin_coord x w dw in
        let sy1 := Z.min (sy + 1) (h - 1) in
        let sx1 := Z.min (sx + 1) (w - 1) in
        let p yy xx := inject_Z (pixel img yy xx) in
        round_half_up
          ((1 - ay) * ((1 - ax) * p sy sx + ax * p sy sx1)
           + ay * ((1 - ax) * p sy1 sx + ax * p sy1 sx1)))
        (zrange dw))
      (zrange dh)).

Definition target_size : Z * Z := (56%Z, 56%Z).

(** [CardRecognitionPipeline._preprocess_image] *)
Definition _preprocess_image (img : image) : option image :=
  match resize img (fst target_size) (snd target_size) with
  | Some img_resized => Some (gaussian_blur3 img_resized)
  | None => None
  end.

(** ** Slots of a recognition frame and concrete inputs *)

Definition slot_result (cards : list CardResult * list CardResult) (s : slot) : CardResult :=
  match s with
  | HeroSlot i => nth i (fst cards) default_card
  | BoardSlot i => nth i (snd cards) default_card
  end.

(** Two hero cards, five board cards, and the default result at slot [s]. *)
Definition frame_shape (s : slot) (acc : list CardResult * list CardResult) : Prop :=
  List.length (fst acc) = 2%nat /\ List.length (snd acc) = 5%nat /\
  slot_result acc s = default_card.

(** A 56x56 black image with one pixel of value 16 in the middle. *)
Definition spot_image : image :=
  map (fun y => map (fun x => if ((y =? 28) && (x =? 28))%Z then 16%Z else 0%Z) (zrange 56))
      (zrange 56).

(** A pipeline whose pot EMA and stable value are both 10. *)
Definition pot_at_10 : TextState :=
  mkTextState [("pot_combined", Some 10); ("hero_stack", None); ("to_call", None); ("hero_name", None)]
              [("pot_combined", Some 10); ("hero_stack", None); ("to_call", None); ("hero_name", None)].

(** The normalized value reported for a zone. *)
Definition reported_value (run : option (list (string * TextResult)) * TextState)
    (element_name : string) : option (option (Q + string)) :=
  match fst run with
  | Some res => option_map normalized_value (alookup element_name res)
  | None => None
  end.

(** The part of the text state that belongs to one zone name. *)
Definition view (n : string) (st : TextState) : option (option Q) * option (option Q) :=
  (alookup n (ema_values st), alookup n (stable_values st)).

(** A computation that reads and writes only the state of zone [n]. *)
Definition local_to {A} (n : string) (m : M A) : Prop :=
  (forall st1 st2, view n st1 = view n st2 ->
     fst (m st1) = fst (m st2) /\ view n (snd (m st1)) = view n (snd (m st2))) /\
  (forall st k, k <> n -> view k (snd (m st)) = view k st).

(** * Further functions of the OCR modules *)

(** ** [TextRecognitionPipeline._normalize_money_value] *)

(** [re.search(pattern, s)] for a pattern given by its head matcher: the
    match at the leftmost position where there is one. *)
Fixpoint search (m : list ascii -> option (list ascii * list ascii))
    (s : list ascii) : option (list ascii) :=
  match m s with
  | Some (found, _) => Some found
  | None => match s with [] => None | _ :: s' => search m s' end
  end.

Definition is_sep (c : ascii) : bool := Ascii.eqb c "."%char || Ascii.eqb c ","%char.
Definition is_k (c : ascii) : bool := Ascii.eqb c "k"%char || Ascii.eqb c "K"%char.
Definition is_m (c : ascii) : bool := Ascii.eqb c "m"%char || Ascii.eqb c "M"%char.

(** One attempt of [(\d+(?:[.,]\d+)?)\s*([kK])] (with [suffix] the last
    class) at the head of [s]: group 1 and what follows the match.  A
    shorter run of [\d+] is followed by a digit, which neither [[.,]] nor
    the suffix class accepts, so only the longest runs can succeed; the
    optional group is tried first, then skipped.  Likewise a shorter [\s*]
    leaves a blank in front of the suffix class. *)
Definition match_suffixed (suffix : ascii -> bool) (s : list ascii)
    : option (list ascii * list ascii) :=
  let '(d1, r) := span_digits s in
  let suffix_after (t : list ascii) :=
    match drop_spaces t with
    | c :: t' => if suffix c then Some t' else None
    | [] => None
    end in
  match d1 with
  | [] => None
  | _ :: _ =>
      let with_group :=
        match r with
        | sep :: r' =>
            if is_sep sep then
              match span_digits r' with
              | ((_ :: _) as d2, r'') =>
                  option_map (fun t => (app d1 (sep :: d2), t)) (suffix_after r'')
              | _ => None
              end
            else None
        | [] => None
        end in
      match with_group with
      | Some res => Some res
      | None => option_map (fun t => (d1, t)) (suffix_after r)
      end
  end.

(** [TextRecognitionPipeline._normalize_money_value], value part (the
    second component of the returned pair is the input text).  The four
    entries of [self.money_patterns] are tried in order; their converters
    cannot raise on what the patterns match. *)
Definition _normalize_money_value (text : string) : option Q :=
  let s := list_ascii_of_string text in
  match s with
  | [] => None
  | _ :: _ =>
      let cleaned := _apply_character_corrections (filter pot_kept s) in
      match cleaned with
      | [] => None
      | _ :: _ =>
          let cleaned := _fix_common_pot_errors cleaned in
          match search (match_suffixed is_k) cleaned with
          | Some g => Some (py_float_simple (replace_char ","%char "."%char g) * 1000)
          | None =>
              match search (match_suffixed is_m) cleaned with
              | Some g => Some (py_float_simple (replace_char ","%char "."%char g) * 1000000)
              | None =>
                  match search match_decimal cleaned with
                  | Some g => Some (py_float_simple (replace_char ","%char "."%char g))
                  | None => option_map py_float_simple (search match_integer cleaned)
                  end
              end
          end
      end
  end.

(** ** [TextRecognitionPipeline._normalize_name] *)

Definition is_alpha (c : ascii) : bool :=
  let n := nat_of_ascii c in ((65 <=? n) && (n <=? 90) || (97 <=? n) && (n <=? 122))%nat.

(** The class [[a-zA-Z0-9\s\-]] (on ASCII text [\s] is [str.isspace]). *)
Definition name_kept (c : ascii) : bool :=
  is_alpha c || is_digit c || is_py_space c || Ascii.eqb c "-"%char.

(** [self.name_corrections] is empty. *)
Definition name_corrections : list (ascii * ascii) := [].

Definition _apply_name_corrections (s : list ascii) : list ascii :=
  fold_left (fun acc '(w, c) => replace_char w c acc) name_corrections s.

(** [str.strip()] on a list of characters. *)
Definition strip_list (l : list ascii) : list ascii := rev (drop_spaces (rev (drop_spaces l))).

Section NameNormalization.

(** [len(corrected) * 0.7] as binary floating point evaluates it (it is
    below the exact product for some lengths, the first one being 90). *)
Variable len_times_07 : nat -> Q.

(** [TextRecognitionPipeline._normalize_name], name part. *)
Definition _normalize_name (text : string) : option string :=
  let s := list_ascii_of_string text in
  match s with
  | [] => None
  | _ :: _ =>
      let cleaned := strip_list (filter name_kept s) in
      match cleaned with
      | [] => None
      | _ :: _ =>
          let corrected := _apply_name_corrections cleaned in
          if (List.length corrected <? 2)%nat then None
          else if Qltb (len_times_07 (List.length corrected))
                       (inject_Z (Z.of_nat (List.length (filter is_digit corrected))))
          then None
          else match corrected with
               | [] => None
               | _ :: _ => Some (string_of_list_ascii corrected)
               end
      end
  end.

End NameNormalization.

(** ** Zone rectangles: [_extract_text_zones], [get_text_zone_rects] and
    [_extract_card_rois] *)

(** [coords.base] after the check [in ("client", "table")]. *)
Inductive coords_base := BaseClient | BaseTable.

(** A YAML mapping of numbers, [cfg.get(key, default)]. *)
Definition cfg_get (key : string) (default : Q) (cfg : list (string * Q)) : Q :=
  match alookup key cfg with Some v => v | None => default end.

(** [int(f)] on a float: truncation towards zero. *)
Definition py_trunc (q : Q) : Z :=
  if Qle_bool 0 q then Qfloor q else - Qfloor (- q).

(** [(x0, y0, x1, y1)] of the client base. *)
Definition client_rect (frame_h frame_w : Z) (cfg : list (string * Q)) : Z * Z * Z * Z :=
  let x := cfg_get "x" 0 cfg in
  let y := cfg_get "y" 0 cfg in
  let w := cfg_get "w" 0 cfg in
  let h := cfg_get "h" 0 cfg in
  (py_trunc (x * inject_Z frame_w), py_trunc (y * inject_Z frame_h),
   py_trunc ((x + w) * inject_Z frame_w), py_trunc ((y + h) * inject_Z frame_h)).

(** [(x0, y0, x1, y1)] of the [table_zone] base, with the anchor [tz]. *)
Definition table_rect (tz : list (string * Q)) (frame_h frame_w : Z)
    (cfg : list (string * Q)) : Z * Z * Z * Z :=
  let ax := cfg_get "x" 0 tz in
  let ay := cfg_get "y" 0 tz in
  let aw := cfg_get "w" 1 tz in
  let ah := cfg_get "h" 1 tz in
  let x := cfg_get "x" 0 cfg in
  let y := cfg_get "y" 0 cfg in
  let w := cfg_get "w" 0 cfg in
  let h := cfg_get "h" 0 cfg in
  (py_trunc ((ax + x * aw) * inject_Z frame_w), py_trunc ((ay + y * ah) * inject_Z frame_h),
   py_trunc ((ax + (x + w) * aw) * inject_Z frame_w),
   py_trunc ((ay + (y + h) * ah) * inject_Z frame_h)).

(** The bounds of the numpy slice [a[max(0, lo):max(0, hi)]] of an axis of
    length [n]: [(start, stop)], of length [max(0, stop - start)]. *)
Definition slice_bounds (lo hi n : Z) : Z * Z :=
  (Z.min (Z.max 0 lo) n, Z.min (Z.max 0 hi) n).

(** The crop [frame[max(0, y0):max(0, y1), max(0, x0):max(0, x1)]] as its
    window [(x_start, y_start, x_stop, y_stop)] in the frame. *)
Definition crop_window (frame_h frame_w : Z) (r : Z * Z * Z * Z) : Z * Z * Z * Z :=
  let '(x0, y0, x1, y1) := r in
  let '(xs, xe) := slice_bounds x0 x1 frame_w in
  let '(ys, ye) := slice_bounds y0 y1 frame_h in
  (xs, ys, xe, ye).

(** [roi.size > 0 and (y1 > y0) and (x1 > x0)] (the frame has at least one
    channel). *)
Definition crop_kept (frame_h frame_w : Z) (r : Z * Z * Z * Z) : bool :=
  let '(x0, y0, x1, y1) := r in
  let '(xs, ys, xe, ye) := crop_window frame_h frame_w r in
  (xs <? xe)%Z && (ys <? ye)%Z && (y0 <? y1)%Z && (x0 <? x1)%Z.

Definition text_zone_allowed (element_name : string) : bool :=
  existsb (String.eqb (lower element_name)) ["pot_combined"; "hero_stack"; "to_call"; "hero_name"].

(** [TextRecognitionPipeline._extract_text_zones]: the crops by zone name,
    each as its window in the frame.  The YAML values are numbers. *)
Definition _extract_text_zones (base : coords_base) (frame_h frame_w : Z)
    (rois_config : list (string * list (string * Q))) : list (string * (Z * Z * Z * Z)) :=
  match base with
  | BaseTable => []
  | BaseClient =>
      fold_left
        (fun zones '(element_name, roi_config) =>
           if text_zone_allowed element_name then
             let r := client_rect frame_h frame_w roi_config in
             if crop_kept frame_h frame_w r
             then aset element_name (crop_window frame_h frame_w r) zones
             else zones
           else zones)
        rois_config []
  end.

(** [TextRecognitionPipeline.get_text_zone_rects] *)
Definition get_text_zone_rects (base : coords_base) (frame_h frame_w : Z)
    (rois_config : list (string * list (string * Q))) : list (string * (Z * Z * Z * Z)) :=
  match base with
  | BaseTable => []
  | BaseClient =>
      fold_left
        (fun rects '(element_name, roi_config) =>
           if text_zone_allowed element_name then
             let '(x0, y0, x1, y1) := client_rect frame_h frame_w roi_config in
             if (x0 <? x1)%Z && (y0 <? y1)%Z
             then aset element_name (x0, y0, x1, y1) rects
             else rects
           else rects)
        rois_config []
  end.

(** [CardRecognitionPipeline._extract_card_rois]; [tz] is
    [anchors.get('table_zone', {}) or {}]. *)
Definition _extract_card_rois (base : coords_base) (tz : list (string * Q))
    (frame_h frame_w : Z) (rois_config : list (string * list (string * Q)))
    : list (string * (Z * Z * Z * Z)) :=
  fold_left
    (fun card_rois '(card_name, roi_config) =>
       if contains "card" (lower card_name) then
         let r := match base with
                  | BaseClient => client_rect frame_h frame_w roi_config
                  | BaseTable => table_rect tz frame_h frame_w roi_config
                  end in
         if crop_kept frame_h frame_w r
         then aset card_name (crop_window frame_h frame_w r) card_rois
         else card_rois
       else card_rois)
    rois_config [].

(** ** Performance metrics of the text pipeline *)

Record PerformanceMetrics := mkPerformanceMetrics {
  total_calls : Z;
  total_time : Q;
  avg_time : Q;
  last_call_time : Q
}.

(** [reset_performance_metrics] (and the initial value set by [__init__]). *)
Definition reset_performance_metrics : PerformanceMetrics := mkPerformanceMetrics 0 0 0 0.

(** [_update_performance_metrics] *)
Definition _update_performance_metrics (p : PerformanceMetrics) (call_time : Q)
    : PerformanceMetrics :=
  let calls := (total_calls p + 1)%Z in
  let tt := total_time p + call_time in
  mkPerformanceMetrics calls tt (tt / inject_Z calls) call_time.

(** ** [CardRecognitionPipeline._calculate_confidence] *)

Section CalculateConfidence.

(** [np.exp] *)
Variable exp : Q -> Q.

Definition _calculate_confidence (scores : scoremap) : option string * Q :=
  match sort_desc scores with
  | [] => (None, 0)
  | [(l, s)] => (Some l, s)
  | (top1_label, top1_score) :: (_, top2_score) :: _ =>
      let margin := top1_score - top2_score in
      (Some top1_label,
       1 / (1 + exp (- (confidence_alpha * top1_score + confidence_beta * margin))))
  end.

End CalculateConfidence.

(** ** [CardRecognitionPipeline._detect_cards_change] *)

(** [f"{card.rank}{card.suit}" if card.rank and card.suit else "??"] *)
Definition card_key (c : CardResult) : string :=
  if truthy_str (rank c) && truthy_str (suit c) then
    match rank c, suit c with
    | Some r, Some s => r ++ s
    | _, _ => "??"
    end
  else "??".

Section DetectCardsChange.

(** Python's [hash] on a tuple of strings (fixed within a process). *)
Variable hash : list string -> Z.

(** Returns the result and the new [self.last_cards_hash]. *)
Definition _detect_cards_change (last_cards_hash : option Z)
    (hero_cards board_cards : list CardResult) : bool * option Z :=
  let current_hash := hash (map card_key (app hero_cards board_cards)) in
  match last_cards_hash with
  | None => (true, Some current_hash)
  | Some h =>
      if (h =? current_hash)%Z then (false, last_cards_hash)
      else (true, Some current_hash)
  end.

End DetectCardsChange.

(** ** [CardRecognitionPipeline._temporal_filtering] *)

(** [self.hero_buffers] and [self.board_buffers]: the deques, oldest first. *)
Record TemporalBuffers := mkTemporalBuffers {
  hero_buffers : list (list CardResult);
  board_buffers : list (list CardResult)
}.

Definition temporal_buffer_size : nat := 3.

(** [_init_temporal_buffers] *)
Definition init_temporal_buffers : TemporalBuffers :=
  mkTemporalBuffers (repeat [] 2) (repeat [] 5).

(** [deque.append] on a deque with [maxlen]. *)
Definition deque_append {A} (maxlen : nat) (b : list A) (x : A) : list A :=
  let b' := app b [x] in skipn (List.length b' - maxlen) b'.

(** The position [lst[i]] reads in a list of length [len] (negative indices
    count from the end); [None] is the [IndexError]. *)
Definition py_index (len : nat) (i : Z) : option nat :=
  if (0 <=? i)%Z then (if (i <? Z.of_nat len)%Z then Some (Z.to_nat i) else None)
  else if (0 <=? i + Z.of_nat len)%Z then Some (Z.to_nat (i + Z.of_nat len)) else None.

(** [votes[k] = votes.get(k, 0) + c] as the code writes it. *)
Definition add_vote (votes : list (string * Q)) (k : string) (c : Q) : list (string * Q) :=
  aset k (match alookup k votes with Some v => v | None => 0 end + c) votes.

(** The voting loop: [(rank_votes, suit_votes, total_confidence)]. *)
Definition tally (buffer : list CardResult) : list (string * Q) * list (string * Q) * Q :=
  fold_left
    (fun '(rv, sv, tot) r =>
       let '(rv, tot) :=
         match rank r with
         | Some k => if truthy_str (rank r) && Qltb 0 (rank_confidence r)
                     then (add_vote rv k (rank_confidence r), tot + rank_confidence r)
                     else (rv, tot)
         | None => (rv, tot)
         end in
       let '(sv, tot) :=
         match suit r with
         | Some k => if truthy_str (suit r) && Qltb 0 (suit_confidence r)
                     then (add_vote sv k (suit_confidence r), tot + suit_confidence r)
                     else (sv, tot)
         | None => (sv, tot)
         end in
       (rv, sv, tot))
    buffer ([], [], 0).

(** [max(votes.items(), key=lambda x: x[1])[0] if votes else None]: the
    first item with the largest vote. *)
Definition best_vote (votes : list (string * Q)) : option string :=
  match votes with
  | [] => None
  | x :: votes' =>
      Some (fst (fold_left (fun best y => if Qltb (snd best) (snd y) then y else best) votes' x))
  end.

(** [_temporal_filtering(card_results, buffer_index)]; [None] is the
    [IndexError] of [self.hero_buffers[buffer_index]]. *)
Definition _temporal_filtering (bufs : TemporalBuffers) (card_results : list CardResult)
    (buffer_index : Z) : option (CardResult * TemporalBuffers) :=
  let hero := hero_buffers bufs in
  let board := board_buffers bufs in
  let '(is_hero, pos, source_index) :=
    if (buffer_index <? 2)%Z then (true, py_index (List.length hero) buffer_index, buffer_index)
    else
      let buf_idx := Z.max 0 (Z.min (buffer_index - 2) (Z.of_nat (List.length board) - 1)) in
      (false, py_index (List.length board) buf_idx, buf_idx) in
  match pos with
  | None => None
  | Some i =>
      let buffer := nth i (if is_hero then hero else board) [] in
      let item :=
        if (0 <=? source_index)%Z && (source_index <? Z.of_nat (List.length card_results))%Z
        then nth (Z.to_nat source_index) card_results default_card
        else match rev buffer with
             | candidate :: _ => candidate
             | [] => default_card
             end in
      let buffer := deque_append temporal_buffer_size buffer item in
      let bufs' := if is_hero then mkTemporalBuffers (set_nth i buffer hero) board
                   else mkTemporalBuffers hero (set_nth i buffer board) in
      let '(rank_votes, suit_votes, total_confidence) := tally buffer in
      let avg_confidence :=
        match buffer with
        | [] => 0
        | _ :: _ => total_confidence / inject_Z (Z.of_nat (List.length buffer))
        end in
      Some (mkCardResult (best_vote rank_votes) (best_vote suit_votes)
              avg_confidence avg_confidence avg_confidence
              (Qltb avg_confidence confidence_threshold) [] [],
            bufs')
  end.

(** ** Predicates and step functions used by the further properties *)

Definition kept_or_space (c : ascii) : bool := pot_kept c || Ascii.eqb c " "%char.

Definition money_fraction (frac : list ascii) : Prop :=
  frac = [] \/ exists sep d2, frac = sep :: d2 /\ is_sep sep = true /\ d2 <> [] /\
                              forallb is_digit d2 = true.

Definition name_shape (l : list ascii) : Prop :=
  (2 <= List.length l)%nat /\ forallb name_kept l = true /\
  (forall c t, l = c :: t -> is_py_space c = false) /\
  (forall c t, l = app t [c] -> is_py_space c = false).

Definition preserves {A} (P : TextState -> Prop) (m : M A) : Prop :=
  forall st, P st -> P (snd (m st)).

Definition ema_consistent (st : TextState) : Prop :=
  ema_values st = stable_values st /\ map fst (ema_values st) = text_zone_names.

Definition window_inside (frame_h frame_w : Z) (w : Z * Z * Z * Z) : Prop :=
  let '(xs, ys, xe, ye) := w in
  (0 <= xs < xe /\ xe <= frame_w /\ 0 <= ys < ye /\ ye <= frame_h)%Z.

Definition windows_inside (fh fw : Z) (zones : list (string * (Z * Z * Z * Z))) : Prop :=
  forall k w, alookup k zones = Some w -> window_inside fh fw w.

Definition zones_match_rects (fh fw : Z) (zones rects : list (string * (Z * Z * Z * Z))) : Prop :=
  forall k w, alookup k zones = Some w ->
    exists r, alookup k rects = Some r /\ w = crop_window fh fw r.

Definition tally_step : list (string * Q) * list (string * Q) * Q -> CardResult ->
    list (string * Q) * list (string * Q) * Q :=
  fun '(rv, sv, tot) r =>
    let '(rv, tot) :=
      match rank r with
      | Some k => if truthy_str (rank r) && Qltb 0 (rank_confidence r)
                  then (add_vote rv k (rank_confidence r), tot + rank_confidence r)
                  else (rv, tot)
      | None => (rv, tot)
      end in
    let '(sv, tot) :=
      match suit r with
      | Some k => if truthy_str (suit r) && Qltb 0 (suit_confidence r)
                  then (add_vote sv k (suit_confidence r), tot + suit_confidence r)
                  else (sv, tot)
      | None => (sv, tot)
      end in
    (rv, sv, tot).

(** * Properties *)

(** ** Street inference *)

Lemma game_state_update (st : StreetState) (now : Q) (b : list CardResult) :
  game_state (_update_game_state st now b) =
  match visible_cards b with
  | O => PREFLOP | 3%nat => FLOP | 4%nat => TURN | 5%nat => RIVER
  | _ => game_state st
  end.
Proof.
  unfold _update_game_state.
  destruct (visible_cards b) as [|[|[|[|[|[|n]]]]]]; destruct st as [[] t]; reflexivity.
Qed.

(** C1: on a board of five results the street becomes preflop, flop, turn
    or river for 0, 3, 4 or 5 slots with both rank and suit, and stays the
    previous street for 1 or 2. *)
Theorem update_game_state_street (st : StreetState) (now : Q) (board : list CardResult)
    (Hlen : List.length board = 5%nat) :
  let st' := _update_game_state st now board in
  (visible_cards board = 0%nat -> game_state st' = PREFLOP) /\
  (visible_cards board = 3%nat -> game_state st' = FLOP) /\
  (visible_cards board = 4%nat -> game_state st' = TURN) /\
  (visible_cards board = 5%nat -> game_state st' = RIVER) /\
  (visible_cards board = 1%nat \/ visible_cards board = 2%nat -> game_state st' = game_state st).
Proof.
  cbv zeta. rewrite game_state_update.
  repeat split; intros H; try (destruct H as [H|H]); rewrite H; reflexivity.
Qed.

Lemma update_game_state_street_witness :
  List.length [default_card; default_card;
    mkCardResult (Some "A") (Some "h") 1 1 1 false [] []; default_card; default_card] = 5%nat /\
  let st' := _update_game_state (mkStreetState FLOP 0) 1
      [default_card; default_card;
       mkCardResult (Some "A") (Some "h") 1 1 1 false [] []; default_card; default_card] in
  (visible_cards [default_card; default_card;
       mkCardResult (Some "A") (Some "h") 1 1 1 false [] []; default_card; default_card] = 0%nat ->
     game_state st' = PREFLOP) /\
  (visible_cards [default_card; default_card;
       mkCardResult (Some "A") (Some "h") 1 1 1 false [] []; default_card; default_card] = 3%nat ->
     game_state st' = FLOP) /\
  (visible_cards [default_card; default_card;
       mkCardResult (Some "A") (Some "h") 1 1 1 false [] []; default_card; default_card] = 4%nat ->
     game_state st' = TURN) /\
  (visible_cards [default_card; default_card;
       mkCardResult (Some "A") (Some "h") 1 1 1 false [] []; default_card; default_card] = 5%nat ->
     game_state st' = RIVER) /\
  (visible_cards [default_card; default_card;
       mkCardResult (Some "A") (Some "h") 1 1 1 false [] []; default_card; default_card] = 1%nat \/
   visible_cards [default_card; default_card;
       mkCardResult (Some "A") (Some "h") 1 1 1 false [] []; default_card; default_card] = 2%nat ->
     game_state st' = game_state (mkStreetState FLOP 0)).
Proof.
  split; [reflexivity | apply update_game_state_street; reflexivity].
Defined.

(** ** Validity gates *)

(** C3 fails: a hero suit with margin 0.015 passes its gate, although
    0.015 is below the 0.02 hero margin the claim requires. *)
Lemma card_gates_hero_suit_margin :
  ~ (snd (card_gates false (1 # 2) (15 # 1000) (1 # 2) (15 # 1000)) = true <->
     (15 # 100 <= 1 # 2 /\ 2 # 100 <= 15 # 1000)).
Proof.
  cbv - [Qle]. intros [H _]. destruct (H eq_refl) as [_ Hm].
  unfold Qle in Hm. simpl in Hm. lia.
Qed.

Lemma Qle_bool_and (a b x y : Q) :
  Qle_bool a x && Qle_bool b y = true <-> (a <= x /\ b <= y).
Proof. rewrite andb_true_iff, !Qle_bool_iff. tauto. Qed.

(** C3 (amended): with the binary64 values of the Python code, board slots
    accept rank and suit at score >= 0.12 and margin >= 0.01 (the binary64
    numbers of these literals, 1080863910568919 / 2^53 and
    5764607523034235 / 2^59); hero slots accept the rank at score >= 0.15
    (5404319552844595 / 2^55) and margin >= 0.07 - 0.05 =
    0.020000000000000004 (1441151880758559 / 2^56), and the suit at
    score >= 0.15 and margin >= 0.07 - 0.06 = 0.010000000000000009
    (45035996273705 / 2^52). *)
Theorem card_gates_thresholds (r_top1 r_margin s_top1 s_margin : Q) :
  (fst (card_gates true r_top1 r_margin s_top1 s_margin) = true <->
     (1080863910568919 # 9007199254740992 <= r_top1 /\
      5764607523034235 # 576460752303423488 <= r_margin)) /\
  (snd (card_gates true r_top1 r_margin s_top1 s_margin) = true <->
     (1080863910568919 # 9007199254740992 <= s_top1 /\
      5764607523034235 # 576460752303423488 <= s_margin)) /\
  (fst (card_gates false r_top1 r_margin s_top1 s_margin) = true <->
     (5404319552844595 # 36028797018963968 <= r_top1 /\
      1441151880758559 # 72057594037927936 <= r_margin)) /\
  (snd (card_gates false r_top1 r_margin s_top1 s_margin) = true <->
     (5404319552844595 # 36028797018963968 <= s_top1 /\
      45035996273705 # 4503599627370496 <= s_margin)).
Proof.
  unfold card_gates; cbn [fst snd]. rewrite !Qle_bool_and.
  assert (E1 : py_max (b64 (12 # 100)) (fsub min_top1_score (b64 (25 # 100)))
               == 1080863910568919 # 9007199254740992) by (vm_compute; reflexivity).
  assert (E2 : py_max (b64 (1 # 100)) (fsub min_top1_margin (b64 (8 # 100)))
               == 5764607523034235 # 576460752303423488) by (vm_compute; reflexivity).
  assert (E3 : py_max (b64 (15 # 100)) (fsub min_top1_score (b64 (20 # 100)))
               == 5404319552844595 # 36028797018963968) by (vm_compute; reflexivity).
  assert (E4 : py_max (b64 (2 # 100)) (fsub min_top1_margin (b64 (5 # 100)))
               == 1441151880758559 # 72057594037927936) by (vm_compute; reflexivity).
  assert (E5 : py_max (b64 (1 # 100)) (fsub min_top1_margin (b64 (6 # 100)))
               == 45035996273705 # 4503599627370496) by (vm_compute; reflexivity).
  rewrite E1, E2, E3, E4, E5. tauto.
Qed.

(** ** Top-1 selection *)

Definition score_ge (a b : string * Q) : Prop := snd b <= snd a.

Lemma score_ge_trans : Transitive score_ge.
Proof. intros a b c H1 H2. unfold score_ge in *. eapply Qle_trans; eassumption. Qed.

Lemma Qltb_false (x y : Q) : Qltb x y = false -> y <= x.
Proof.
  unfold Qltb. destruct (Qle_bool y x) eqn:E; intro H; [now apply Qle_bool_iff | discriminate].
Qed.

Lemma Qltb_true (x y : Q) : Qltb x y = true -> x < y.
Proof.
  unfold Qltb. destruct (Qle_bool y x) eqn:E; [discriminate|].
  intros _. apply Qnot_le_lt. intro H. apply Qle_bool_iff in H. congruence.
Qed.

Lemma insert_desc_perm (x : string * Q) (l : scoremap) :
  Permutation (insert_desc x l) (x :: l).
Proof.
  induction l as [|y l IH]; simpl; [reflexivity|].
  destruct (Qltb (snd y) (snd x)); [reflexivity|].
  rewrite IH. apply perm_swap.
Qed.

Lemma sort_desc_perm_aux (l acc : scoremap) :
  Permutation (fold_left (fun acc x => insert_desc x acc) l acc) (l ++ acc).
Proof.
  revert acc. induction l as [|x l IH]; intro acc; simpl; [reflexivity|].
  rewrite IH, insert_desc_perm. symmetry. apply Permutation_middle.
Qed.

Lemma sort_desc_perm (l : scoremap) : Permutation (sort_desc l) l.
Proof. unfold sort_desc. rewrite sort_desc_perm_aux. now rewrite app_nil_r. Qed.

Lemma insert_desc_sorted (x : string * Q) (l : scoremap) :
  Sorted score_ge l -> Sorted score_ge (insert_desc x l).
Proof.
  induction l as [|y l IH]; intro Hs; simpl.
  - constructor; constructor.
  - destruct (Qltb (snd y) (snd x)) eqn:E.
    + constructor; [assumption|]. constructor. unfold score_ge.
      apply Qlt_le_weak, Qltb_true, E.
    + apply Sorted_inv in Hs as [Hs Hr]. constructor; [now apply IH|].
      apply Qltb_false in E.
      destruct l as [|z l]; simpl.
      * constructor. exact E.
      * inversion Hr; subst. destruct (Qltb (snd z) (snd x)); constructor; assumption.
Qed.

Lemma sort_desc_sorted (l : scoremap) : Sorted score_ge (sort_desc l).
Proof.
  unfold sort_desc.
  assert (H : forall acc, Sorted score_ge acc ->
            Sorted score_ge (fold_left (fun acc x => insert_desc x acc) l acc)).
  { induction l as [|x l IH]; intros acc Hs; simpl; [assumption|].
    apply IH, insert_desc_sorted, Hs. }
  apply H. constructor.
Qed.

(** C4 fails: with the single family [A] scored 0.5 the margin is 0.5,
    not 0. *)
Lemma choose_family_single_margin :
  ~ (let '(_, _, margin) := _choose_family_with_margin [("A", 1 # 2)] in margin == 0).
Proof. simpl. unfold Qeq. simpl. discriminate. Qed.

(** C4 (amended): for a non-empty family map the chosen family has the
    highest score and [top1] is that score; the margin is [top1 - top2]
    (top2 the highest score among the other families) when there are two
    families or more, and equals [top1] itself when there is only one. *)
Theorem choose_family_with_margin_spec (fam_scores : scoremap) (Hne : fam_scores <> []) :
  exists l1 s1 rest,
    Permutation fam_scores ((l1, s1) :: rest) /\
    Forall (fun p => snd p <= s1) rest /\
    let '(label, top1, margin) := _choose_family_with_margin fam_scores in
    label = Some l1 /\ top1 = s1 /\
    (rest = [] -> margin = s1) /\
    (rest <> [] -> exists l2 s2 rest',
       Permutation rest ((l2, s2) :: rest') /\
       Forall (fun p => snd p <= s2) rest' /\ margin == s1 - s2).
Proof.
  pose proof (sort_desc_perm fam_scores) as Hp.
  pose proof (sort_desc_sorted fam_scores) as Hs.
  unfold _choose_family_with_margin.
  destruct (sort_desc fam_scores) as [|[l1 s1] rest] eqn:E.
  { apply Permutation_nil in Hp. congruence. }
  exists l1, s1, rest. split; [now symmetry|].
  apply Sorted_StronglySorted in Hs; [|exact score_ge_trans].
  apply StronglySorted_inv in Hs as [Hs Hf].
  split; [exact Hf|].
  destruct rest as [|[l2 s2] rest'].
  - split; [reflexivity|]. split; [reflexivity|].
    split; [intros _; reflexivity | intros H; congruence].
  - split; [reflexivity|]. split; [reflexivity|].
    split; [intros H; discriminate|]. intros _.
    exists l2, s2, rest'. split; [reflexivity|].
    apply StronglySorted_inv in Hs as [_ Hf2]. split; [exact Hf2|].
    inversion Hf as [|? ? H2 _]; subst. unfold score_ge in H2; simpl in H2.
    unfold py_max. destruct (Qltb 0 (s1 - s2)) eqn:Ed; [reflexivity|].
    apply Qltb_false in Ed.
    apply Qle_antisym; [|exact Ed].
    apply (Qplus_le_r _ _ s2). ring_simplify. exact H2.
Qed.

Lemma choose_family_with_margin_spec_witness :
  [("A", 9 # 10); ("K", 3 # 10)] <> [] /\
  exists l1 s1 rest,
    Permutation [("A", 9 # 10); ("K", 3 # 10)] ((l1, s1) :: rest) /\
    Forall (fun p => snd p <= s1) rest /\
    let '(label, top1, margin) := _choose_family_with_margin [("A", 9 # 10); ("K", 3 # 10)] in
    label = Some l1 /\ top1 = s1 /\
    (rest = [] -> margin = s1) /\
    (rest <> [] -> exists l2 s2 rest',
       Permutation rest ((l2, s2) :: rest') /\
       Forall (fun p => snd p <= s2) rest' /\ margin == s1 - s2).
Proof.
  split; [discriminate | apply choose_family_with_margin_spec; discriminate].
Defined.

(** ** Card results *)

Lemma Qltb_lt (x y : Q) : x < y -> Qltb x y = true.
Proof.
  intro H. unfold Qltb. destruct (Qle_bool y x) eqn:E; [|reflexivity].
  apply Qle_bool_iff in E. exfalso. apply (Qlt_not_le _ _ H E).
Qed.

(** C5: a processed slot has [combined_confidence] the mean of its rank
    and suit confidences, and is uncertain whenever that mean is below the
    threshold 0.3 or its rank or suit gate failed. *)
Theorem process_card_confidence (exp : Q -> Q) (card_name : string) (z : card_zones)
    (r : CardResult) (Hr : process_card exp card_name z = Some r) :
  combined_confidence r = (rank_confidence r + suit_confidence r) / 2 /\
  let '(_, r_top1, r_margin) := _choose_family_with_margin (_aggregate_family_scores (rank_scores r)) in
  let '(_, s_top1, s_margin) := _choose_family_with_margin (_aggregate_family_scores (suit_scores r)) in
  let '(rank_valid, suit_valid) :=
    card_gates (contains "board" (lower card_name)) r_top1 r_margin s_top1 s_margin in
  (combined_confidence r < confidence_threshold \/ rank_valid = false \/ suit_valid = false) ->
  is_uncertain r = true.
Proof.
  unfold process_card in Hr.
  destruct z as [|rb sb rs ss]; [discriminate|].
  destruct (rb && sb); [discriminate|].
  destruct (_choose_family_with_margin (_aggregate_family_scores rs)) as [[rm rt] rmar] eqn:E1.
  destruct (_choose_family_with_margin (_aggregate_family_scores ss)) as [[sm st] smar] eqn:E2.
  destruct (card_gates (contains "board" (lower card_name)) rt rmar st smar) as [rv sv] eqn:E3.
  injection Hr as <-. cbn [combined_confidence rank_confidence suit_confidence
                             rank_scores suit_scores is_uncertain].
  rewrite E1, E2, E3. split; [reflexivity|].
  intros [H|[H|H]].
  - rewrite (Qltb_lt _ _ H). reflexivity.
  - subst rv. now rewrite orb_true_r.
  - subst sv. now rewrite orb_true_r.
Qed.

Lemma process_card_confidence_witness :
  process_card (fun _ => 1) "hero_left_card"
    (Zones false false [("A_1", 9 # 10); ("K_1", 3 # 10)] [("h_1", 8 # 10); ("s_1", 2 # 10)])
  = Some (match process_card (fun _ => 1) "hero_left_card"
                  (Zones false false [("A_1", 9 # 10); ("K_1", 3 # 10)]
                                     [("h_1", 8 # 10); ("s_1", 2 # 10)]) with
          | Some r => r | None => default_card end) /\
  let r := match process_card (fun _ => 1) "hero_left_card"
                  (Zones false false [("A_1", 9 # 10); ("K_1", 3 # 10)]
                                     [("h_1", 8 # 10); ("s_1", 2 # 10)]) with
           | Some r => r | None => default_card end in
  combined_confidence r = (rank_confidence r + suit_confidence r) / 2 /\
  let '(_, r_top1, r_margin) := _choose_family_with_margin (_aggregate_family_scores (rank_scores r)) in
  let '(_, s_top1, s_margin) := _choose_family_with_margin (_aggregate_family_scores (suit_scores r)) in
  let '(rank_valid, suit_valid) :=
    card_gates (contains "board" (lower "hero_left_card")) r_top1 r_margin s_top1 s_margin in
  (combined_confidence r < confidence_threshold \/ rank_valid = false \/ suit_valid = false) ->
  is_uncertain r = true.
Proof.
  split; [vm_compute; reflexivity|].
  apply process_card_confidence with
    (exp := fun _ => 1) (card_name := "hero_left_card") (z := Zones false false [("A_1", 9 # 10); ("K_1", 3 # 10)] [("h_1", 8 # 10); ("s_1", 2 # 10)]).
  vm_compute. reflexivity.
Defined.

(** ** Family aggregation *)

(** C6 (code defect): a family whose only variant scores -0.5 (a
    normalised cross-correlation lies in [-1, 1]) is aggregated to 0, the
    default of [fam.get(main, 0.0)], not to its maximum -0.5; the example
    of the specification does aggregate to the per-family maximum. *)
Theorem aggregate_family_scores_default_zero :
  _aggregate_family_scores [("A_1", -1 # 2)] = [("A", 0)] /\
  _aggregate_family_scores [("A_1", 9 # 10); ("A_2", 6 # 10); ("K_1", 3 # 10)]
    = [("A", 9 # 10); ("K", 3 # 10)].
Proof. split; reflexivity. Qed.

(** ** Pot extraction *)

(** C7: [extract_pot_value] reads 1.25 from each of "Pot 1.25",
    "Pot total 1.25", "Side pot: 1.25" and "TOTAL 1.25". *)
Theorem extract_pot_value_phrasing :
  extract_pot_value "Pot 1.25" == 5 # 4 /\
  extract_pot_value "Pot total 1.25" == 5 # 4 /\
  extract_pot_value "Side pot: 1.25" == 5 # 4 /\
  extract_pot_value "TOTAL 1.25" == 5 # 4.
Proof. repeat split; vm_compute; reflexivity. Qed.

(** ** Canonical preprocessing *)

Lemma zrange_length (n : Z) : List.length (zrange n) = Z.to_nat n.
Proof. unfold zrange. now rewrite length_map, length_seq. Qed.

Lemma rows_dims (R : Z -> list Z) (h w : Z) :
  (0 < h)%Z -> (0 <= w)%Z -> (forall y, List.length (R y) = Z.to_nat w) ->
  img_height (map R (zrange h)) = h /\ img_width (map R (zrange h)) = w.
Proof.
  intros Hh Hw HR. unfold img_height, img_width. rewrite length_map, zrange_length.
  split; [lia|].
  destruct (zrange h) as [|y ys] eqn:E.
  - pose proof (zrange_length h) as L. rewrite E in L. simpl in L. lia.
  - simpl. rewrite HR. lia.
Qed.

Lemma gaussian_blur3_dims (img : image) :
  (0 < img_height img)%Z ->
  img_height (gaussian_blur3 img) = img_height img /\
  img_width (gaussian_blur3 img) = img_width img.
Proof.
  intro H. unfold gaussian_blur3. apply rows_dims; [exact H | unfold img_width; lia |].
  intro y. rewrite length_map, zrange_length. reflexivity.
Qed.

Lemma resize_dims (img out : image) :
  resize img 56 56 = Some out -> img_height out = 56%Z /\ img_width out = 56%Z.
Proof.
  unfold resize. cbv zeta.
  destruct ((img_height img =? 0) || (img_width img =? 0))%Z eqn:E0; [discriminate|].
  destruct ((img_height img =? 56) && (img_width img =? 56))%Z eqn:E1.
  - intro H. injection H as <-. apply andb_true_iff in E1 as [A B].
    split; apply Z.eqb_eq; assumption.
  - intro H.
    pose proof (f_equal (fun o => match o with Some x => x | None => out end) H) as H'.
    cbv beta iota in H'. rewrite <- H'.
    apply rows_dims; [lia | lia |].
    intro y. destruct (lin_coord y _ _). rewrite length_map, zrange_length. reflexivity.
Qed.

(** C8 fails: preprocessing the preprocessed spot image again blurs it a
    second time, so the middle pixel goes from 4 to 2. *)
Lemma preprocess_not_idempotent :
  match _preprocess_image spot_image with
  | Some once => _preprocess_image once
  | None => None
  end <> _preprocess_image spot_image.
Proof.
  intro H.
  apply (f_equal (option_map (fun i => pixel i 28 28))) in H.
  vm_compute in H. discriminate.
Qed.

(** C8 (amended): whenever preprocessing succeeds, its output is 56x56,
    so preprocessing that output again only adds one more Gaussian blur
    (the resize is a copy); that blur changes the image in general, as
    [preprocess_not_idempotent] shows. *)
Theorem preprocess_twice_blurs_again (img out : image)
    (H : _preprocess_image img = Some out) :
  img_height out = 56%Z /\ img_width out = 56%Z /\
  _preprocess_image out = Some (gaussian_blur3 out).
Proof.
  unfold _preprocess_image in H. simpl in H.
  destruct (resize img 56 56) as [r|] eqn:Er; [|discriminate].
  injection H as <-.
  destruct (resize_dims _ _ Er) as [Hh Hw].
  destruct (gaussian_blur3_dims r) as [Bh Bw]; [lia|].
  rewrite Bh, Bw, Hh, Hw. split; [reflexivity|]. split; [reflexivity|].
  unfold _preprocess_image, resize. simpl.
  rewrite Bh, Bw, Hh, Hw. reflexivity.
Qed.

Lemma preprocess_twice_blurs_again_witness :
  _preprocess_image spot_image = Some (gaussian_blur3 spot_image) /\
  img_height (gaussian_blur3 spot_image) = 56%Z /\ img_width (gaussian_blur3 spot_image) = 56%Z /\
  _preprocess_image (gaussian_blur3 spot_image)
    = Some (gaussian_blur3 (gaussian_blur3 spot_image)).
Proof.
  split; [vm_compute; reflexivity|].
  apply preprocess_twice_blurs_again with (img := spot_image).
  vm_compute. reflexivity.
Defined.

(** ** Text recognition: isolation of the zones *)

Lemma alookup_aset {V} (k n : string) (v : V) (d : list (string * V)) :
  alookup k (aset n v d) = if String.eqb k n then Some v else alookup k d.
Proof.
  induction d as [|[k' v'] d IH]; simpl.
  - reflexivity.
  - destruct (String.eqb n k') eqn:E.
    + apply String.eqb_eq in E. subst k'. simpl.
      destruct (String.eqb k n); reflexivity.
    + simpl. rewrite IH.
      destruct (String.eqb k k') eqn:E1; [|reflexivity].
      apply String.eqb_eq in E1. subst k'.
      destruct (String.eqb k n) eqn:E2; [|reflexivity].
      apply String.eqb_eq in E2. subst n. rewrite String.eqb_refl in E. discriminate.
Qed.

Lemma local_ret {A} (n : string) (a : A) : local_to n (ret a).
Proof. split; intros; simpl; auto. Qed.

Lemma local_raise {A} (n : string) : local_to n (@raise A).
Proof. split; intros; simpl; auto. Qed.

Lemma local_bind {A B} (n : string) (m : M A) (f : A -> M B) :
  local_to n m -> (forall a, local_to n (f a)) -> local_to n (bind m f).
Proof.
  intros [Hm1 Hm2] Hf. split.
  - intros st1 st2 Hv. unfold bind.
    destruct (Hm1 st1 st2 Hv) as [Ho Hv'].
    destruct (m st1) as [[a1|] s1], (m st2) as [[a2|] s2]; simpl in *; try discriminate.
    + injection Ho as <-. apply (proj1 (Hf a1)). exact Hv'.
    + auto.
  - intros st k Hk. unfold bind.
    pose proof (Hm2 st k Hk) as Hs.
    destruct (m st) as [[a|] s]; simpl in *; [|exact Hs].
    rewrite (proj2 (Hf a) s k Hk). exact Hs.
Qed.

Lemma local_is_value_change_valid (n : string) (v : Q) :
  local_to n (_is_value_change_valid n v).
Proof.
  split.
  - intros st1 st2 Hv. pose proof Hv as Hv0. unfold view in Hv. injection Hv as He Hs.
    unfold _is_value_change_valid, bind, get, ret; simpl. rewrite He.
    destruct (alookup n (ema_values st2)) as [[o|]|]; simpl; try (split; [reflexivity | exact Hv0]).
    destruct (Qeq_bool o 0); simpl; (split; [reflexivity | exact Hv0]).
  - intros st k Hk. unfold _is_value_change_valid, bind, get, ret; simpl.
    destruct (alookup n (ema_values st)) as [[o|]|]; try reflexivity.
    destruct (Qeq_bool o 0); reflexivity.
Qed.

Lemma local_apply_ema_filter (n : string) (v : Q) :
  local_to n (_apply_ema_filter n v).
Proof.
  split.
  - intros st1 st2 Hv. pose proof Hv as Hv0. unfold view in Hv. injection Hv as He Hs.
    cbv beta iota zeta delta [_apply_ema_filter bind get get_item ret raise put].
    rewrite He, Hs.
    destruct (alookup n (ema_values st2)) as [e|]; [|split; [reflexivity | exact Hv0]].
    match goal with |- context [if ?b then _ else _] => destruct b end.
    + destruct (alookup n (stable_values st2)); split; try reflexivity; exact Hv0.
    + split; [reflexivity|]. unfold view; simpl. rewrite !alookup_aset, String.eqb_refl. reflexivity.
  - intros st k Hk.
    cbv beta iota zeta delta [_apply_ema_filter bind get get_item ret raise put].
    destruct (alookup n (ema_values st)) as [e|]; [|reflexivity].
    match goal with |- context [if ?b then _ else _] => destruct b end.
    + destruct (alookup n (stable_values st)); reflexivity.
    + unfold view; simpl. rewrite !alookup_aset.
      apply String.eqb_neq in Hk. rewrite Hk. reflexivity.
Qed.

Lemma local_filter_value (n : string) (o : option (Q + string)) :
  local_to n (filter_value n o).
Proof.
  destruct o as [[v|s]|]; simpl; try apply local_ret.
  apply local_bind; [apply local_is_value_change_valid|].
  intros [|]; [|apply local_ret].
  apply local_bind; [apply local_apply_ema_filter|]. intro. apply local_ret.
Qed.

Section TextIsolation.

Variable normalize_name : string -> option string.
Variable normalize_money : string -> option Q.

Local Abbreviation process := (process_zone normalize_name normalize_money).
Local Abbreviation loop := (zone_loop normalize_name normalize_money).

Lemma local_process_zone (n : string) (z : zone_input) : local_to n (process n z).
Proof.
  destruct z as [|small orig proc]; simpl; [apply local_raise|].
  destruct (combine_detections (choose_ocr small orig proc)) as [[c t] [|m]];
    [apply local_ret|].
  apply local_bind; [apply local_filter_value|]. intro. apply local_ret.
Qed.

Lemma zone_step_eq (r : list (string * TextResult)) (n : string) (z : zone_input) (st : TextState) :
  zone_step normalize_name normalize_money r n z st =
  (Some (aset n (match fst (process n z st) with Some x => x | None => empty_text_result end) r),
   snd (process n z st)).
Proof. unfold zone_step. destruct (process n z st) as [[x|] s]; reflexivity. Qed.

Lemma zone_loop_some (zones : list (string * zone_input)) :
  forall r st, exists res, fst (loop r zones st) = Some res.
Proof.
  induction zones as [|[n z] zones IH]; intros r st; simpl.
  - eauto.
  - unfold bind. rewrite zone_step_eq. apply IH.
Qed.

Lemma zone_loop_app (l1 l2 : list (string * zone_input)) :
  forall r st, loop r (l1 ++ l2) st =
    match loop r l1 st with
    | (Some r', st') => loop r' l2 st'
    | (None, st') => (None, st')
    end.
Proof.
  induction l1 as [|[n z] l1 IH]; intros r st; simpl; [reflexivity|].
  unfold bind. rewrite zone_step_eq. apply IH.
Qed.

Lemma zone_loop_keeps (k : string) (zones : list (string * zone_input)) :
  ~ In k (map fst zones) ->
  forall r st res, fst (loop r zones st) = Some res -> alookup k res = alookup k r.
Proof.
  induction zones as [|[n z] zones IH]; intros Hk r st res H; simpl in *.
  - congruence.
  - unfold bind in H. rewrite zone_step_eq in H.
    rewrite (IH (fun H' => Hk (or_intror H')) _ _ _ H), alookup_aset.
    destruct (String.eqb k n) eqn:E; [|reflexivity].
    apply String.eqb_eq in E. exfalso. apply Hk. left. congruence.
Qed.

Lemma zone_loop_noninterference (f : string) (zones : list (string * zone_input)) :
  ~ In f (map fst zones) ->
  forall r1 r2 st1 st2 res1 res2,
    (forall k, k <> f -> alookup k r1 = alookup k r2) ->
    (forall k, k <> f -> view k st1 = view k st2) ->
    fst (loop r1 zones st1) = Some res1 ->
    fst (loop r2 zones st2) = Some res2 ->
    forall k, k <> f -> alookup k res1 = alookup k res2.
Proof.
  induction zones as [|[n z] zones IH]; intros Hf r1 r2 st1 st2 res1 res2 Hr Hst H1 H2; simpl in *.
  - injection H1 as <-. injection H2 as <-. exact Hr.
  - unfold bind in H1, H2. rewrite zone_step_eq in H1, H2.
    assert (Hn : n <> f) by (intro E; apply Hf; left; congruence).
    destruct (local_process_zone n z) as [Hloc Hframe].
    destruct (Hloc st1 st2 (Hst n Hn)) as [Ho Hv].
    eapply (IH (fun H' => Hf (or_intror H'))); [| | exact H1 | exact H2].
    + intros k Hk. rewrite !alookup_aset, Ho.
      destruct (String.eqb k n); [reflexivity | apply Hr, Hk].
    + intros k Hk. destruct (String.eqb k n) eqn:E.
      * apply String.eqb_eq in E. subst k. exact Hv.
      * apply String.eqb_neq in E.
        rewrite (Hframe st1 k E), (Hframe st2 k E). apply Hst, Hk.
Qed.

Lemma recognize_text_available (zones : list (string * zone_input)) (st : TextState) :
  recognize_text normalize_name normalize_money true zones st = loop [] zones st.
Proof. destruct zones; reflexivity. Qed.

End TextIsolation.

(** C9: when a zone's processing raises, [recognize_text] still returns
    (it is not propagated), that zone's entry is the empty invalid
    [TextResult], and every other zone's entry is the one it would have if
    the failing zone were absent from the frame. *)
Theorem recognize_text_zone_isolation
    (normalize_name : string -> option string) (normalize_money : string -> option Q)
    (st : TextState) (pre post : list (string * zone_input)) (f : string) (z : zone_input)
    (Hnd : NoDup (map fst (pre ++ (f, z) :: post)))
    (Hraise : fst (process_zone normalize_name normalize_money f z
                     (snd (zone_loop normalize_name normalize_money [] pre st))) = None) :
  exists res,
    fst (recognize_text normalize_name normalize_money true (pre ++ (f, z) :: post) st) = Some res /\
    alookup f res = Some empty_text_result /\
    (forall k, k <> f ->
       alookup k res =
       match fst (recognize_text normalize_name normalize_money true (pre ++ post) st) with
       | Some res' => alookup k res'
       | None => None
       end).
Proof.
  rewrite !recognize_text_available, !zone_loop_app.
  rewrite map_app in Hnd. simpl in Hnd.
  pose proof (NoDup_remove_2 _ _ _ Hnd) as Hf. rewrite in_app_iff in Hf.
  destruct (zone_loop normalize_name normalize_money [] pre st) as [[rp|] s] eqn:Epre.
  2:{ destruct (zone_loop_some normalize_name normalize_money pre [] st) as [x Hx].
      rewrite Epre in Hx. discriminate. }
  simpl in Hraise. simpl. unfold bind. rewrite zone_step_eq.
  destruct (process_zone normalize_name normalize_money f z s) as [o s'] eqn:Ez.
  simpl in Hraise. subst o. simpl.
  destruct (zone_loop_some normalize_name normalize_money post
              (aset f empty_text_result rp) s') as [res Hres].
  destruct (zone_loop_some normalize_name normalize_money post rp s) as [res2 Hres2].
  exists res. split; [exact Hres|]. split.
  - rewrite (zone_loop_keeps normalize_name normalize_money f post
               (fun H => Hf (or_intror H)) _ _ _ Hres).
    rewrite alookup_aset, String.eqb_refl. reflexivity.
  - intros k Hk. rewrite Hres2.
    eapply (zone_loop_noninterference normalize_name normalize_money f post
              (fun H => Hf (or_intror H))); [| | exact Hres | exact Hres2 | exact Hk].
    + intros k' Hk'. rewrite alookup_aset.
      apply String.eqb_neq in Hk'. rewrite Hk'. reflexivity.
    + intros k' Hk'.
      pose proof (proj2 (local_process_zone normalize_name normalize_money f z) s k' Hk') as Hfr.
      rewrite Ez in Hfr. exact Hfr.
Qed.

(** Witness for C9: the hero stack zone raises, the pot zone after it still
    gets its reading. *)
Lemma recognize_text_zone_isolation_witness :
  exists res,
    fst (recognize_text (fun _ => None) (fun _ => None) true
           ([] ++ ("hero_stack", ZoneRaises) ::
                  [("pot_combined", ZoneRead false [] [("Pot 1.25", 9 # 10)])])
           init_text_state) = Some res /\
    alookup "hero_stack" res = Some empty_text_result /\
    (forall k, k <> "hero_stack"%string ->
       alookup k res =
       match fst (recognize_text (fun _ => None) (fun _ => None) true
                    ([] ++ [("pot_combined", ZoneRead false [] [("Pot 1.25", 9 # 10)])])
                    init_text_state) with
       | Some res' => alookup k res'
       | None => None
       end).
Proof.
  apply recognize_text_zone_isolation.
  - simpl. constructor.
    + simpl. intros [H|[]]. discriminate H.
    + constructor; [intros []|constructor].
  - reflexivity.
Defined.

(** ** Card recognition: shape of the frame *)

Lemma set_nth_length {A} (i : nat) (x : A) (l : list A) :
  List.length (set_nth i x l) = List.length l.
Proof.
  revert i. induction l as [|y l IH]; intros [|i]; simpl; auto.
Qed.

Lemma nth_set_nth_other {A} (i j : nat) (x d : A) (l : list A) :
  i <> j -> nth i (set_nth j x l) d = nth i l d.
Proof.
  revert i j. induction l as [|y l IH]; intros [|i] [|j] H; simpl; auto.
  - congruence.
Qed.

Lemma place_card_shape (s : slot) (acc : list CardResult * list CardResult)
    (card_name : string) (r : CardResult) :
  card_slot card_name <> Some s -> frame_shape s acc -> frame_shape s (place_card acc card_name r).
Proof.
  destruct acc as [hero board]. unfold frame_shape, place_card. simpl.
  intros Hne (Hh & Hb & Hd).
  destruct (card_slot card_name) as [[j|j]|]; simpl; rewrite ?set_nth_length;
    (split; [assumption | split; [assumption|]]); destruct s as [i|i]; simpl in *;
    try assumption;
    (rewrite nth_set_nth_other; [exact Hd | intro; subst; congruence]).
Qed.

Lemma card_loop_shape (exp : Q -> Q) (s : slot) (cards : list (string * card_zones)) :
  forall acc, frame_shape s acc ->
  (forall name z, In (name, z) cards -> card_slot name = Some s -> process_card exp name z = None) ->
  frame_shape s
    (fold_left
       (fun acc '(card_name, z) =>
          match process_card exp card_name z with
          | Some result => place_card acc card_name result
          | None => acc
          end) cards acc).
Proof.
  induction cards as [|[name z] cards IH]; intros acc Hacc Hskip; simpl; [exact Hacc|].
  apply IH; [| intros n' z' Hin; apply Hskip; right; exact Hin].
  destruct (process_card exp name z) as [r|] eqn:Ep; [|exact Hacc].
  apply place_card_shape; [|exact Hacc].
  intro Hs. rewrite (Hskip name z (or_introl eq_refl) Hs) in Ep. discriminate.
Qed.

(** C10: for every input, the frame returned by [recognize_cards] has two
    hero cards and five board cards, and a slot that no processed card
    filled (no ROI for it, or every ROI for it skipped: a zone missing or both
    sub-zones blank) holds the default [CardResult]: rank and suit None,
    confidences 0, uncertain, empty score maps. *)
Theorem recognize_cards_slots (exp : Q -> Q) (st : StreetState) (now : Q)
    (card_rois : list (string * card_zones)) (texts : list (string * TextResult)) (s : slot)
    (Hskip : forall name z, In (name, z) card_rois -> card_slot name = Some s ->
                            process_card exp name z = None) :
  let fr := fst (recognize_cards exp st now card_rois texts) in
  List.length (hero_cards fr) = 2%nat /\ List.length (board_cards fr) = 5%nat /\
  slot_result (hero_cards fr, board_cards fr) s =
    mkCardResult None None 0 0 0 true [] [].
Proof.
  unfold recognize_cards.
  pose proof (card_loop_shape exp s card_rois (repeat default_card 2, repeat default_card 5))
    as Hs.
  unfold card_loop.
  destruct (fold_left _ card_rois _) as [hero board] eqn:E.
  simpl. apply Hs; [|exact Hskip].
  unfold frame_shape, slot_result; cbn [fst snd]. split; [reflexivity | split; [reflexivity|]].
  destruct s as [i|i]; apply nth_repeat.
Qed.

(** Witness for C10: the first board zone is missing. *)
Lemma recognize_cards_slots_witness :
  let fr := fst (recognize_cards (fun _ => 1) (mkStreetState PREFLOP 0) 0
                   [("board_card1", ZonesMissing)] [] ) in
  List.length (hero_cards fr) = 2%nat /\ List.length (board_cards fr) = 5%nat /\
  slot_result (hero_cards fr, board_cards fr) (BoardSlot 0) =
    mkCardResult None None 0 0 0 true [] [].
Proof.
  apply recognize_cards_slots.
  intros name z [H|[]] _. injection H as <- <-. reflexivity.
Defined.

(** ** Text recognition: jumps of the EMA value *)

(** C2 (counterexample): the EMA value of the pot is 10 and the next frame
    reads 20, a relative change of 100%.  The reported normalized value of
    the pot is 20, not the retained 10. *)
Lemma ema_jump_reported :
  reported_value
    (recognize_text (fun _ => None) (fun _ => None) true
       [("pot_combined", ZoneRead false [] [("Pot 20", 9 # 10)])] pot_at_10)
    "pot_combined" = Some (Some (inl 20)) /\
  reported_value
    (recognize_text (fun _ => None) (fun _ => None) true
       [("pot_combined", ZoneRead false [] [("Pot 20", 9 # 10)])] pot_at_10)
    "pot_combined" <> Some (Some (@inl Q string 10)).
Proof.
  split.
  - vm_compute. reflexivity.
  - vm_compute. discriminate.
Qed.

(** C2 (as the code behaves): when a zone's EMA value exists and is non-zero
    and the relative change of the new value exceeds 30%, the filtering step
    leaves the whole text state unchanged and reports the new value itself. *)
Theorem filter_value_rejected_jump (element_name : string) (v old : Q) (st : TextState)
    (Hold : alookup element_name (ema_values st) = Some (Some old))
    (Hnz : ~ old == 0)
    (Hjump : max_value_change < Qabs (v - old) / py_max (1 # 1000000000) (Qabs old)) :
  filter_value element_name (Some (inl v)) st = (Some (Some (inl v)), st).
Proof.
  unfold filter_value, _is_value_change_valid, bind, get, ret.
  rewrite Hold.
  destruct (Qeq_bool old 0) eqn:E.
  - apply Qeq_bool_iff in E. contradiction.
  - destruct (Qle_bool (Qabs (v - old) / py_max (1 # 1000000000) (Qabs old)) max_value_change) eqn:E2.
    + apply Qle_bool_iff in E2. exfalso. apply (Qlt_not_le _ _ Hjump E2).
    + reflexivity.
Qed.

(** Witness for C2: EMA value 10, new value 20. *)
Lemma filter_value_rejected_jump_witness :
  filter_value "pot_combined" (Some (inl 20)) pot_at_10 = (Some (Some (inl 20)), pot_at_10).
Proof.
  apply (filter_value_rejected_jump "pot_combined" 20 10 pot_at_10).
  - reflexivity.
  - intro H. vm_compute in H. discriminate H.
  - vm_compute. reflexivity.
Defined.

(** * Further properties of the OCR modules *)

Lemma span_digits_spec (s : list ascii) :
  let '(d, r) := span_digits s in
  s = app d r /\ forallb is_digit d = true /\
  match r with c :: _ => is_digit c = false | [] => True end.
Proof.
  induction s as [|c s IH]; simpl; [auto|].
  destruct (is_digit c) eqn:Ec; simpl.
  - destruct (span_digits s) as [d r]. destruct IH as (-> & Hd & Hr).
    simpl. rewrite Ec, Hd. auto.
  - auto.
Qed.

Lemma span_digits_app (d r : list ascii) :
  forallb is_digit d = true ->
  match r with c :: _ => is_digit c = false | [] => True end ->
  span_digits (app d r) = (d, r).
Proof.
  intros Hd Hr. induction d as [|c d IH]; simpl in *.
  - destruct r as [|c r]; [reflexivity|]. simpl. rewrite Hr. reflexivity.
  - apply andb_true_iff in Hd as [Hc Hd]. rewrite Hc, IH by exact Hd. reflexivity.
Qed.

Lemma digits_Z_nonneg (d : list ascii) (acc : Z) : (0 <= acc)%Z -> (0 <= digits_Z d acc)%Z.
Proof.
  revert acc. induction d as [|c d IH]; intros acc H; simpl; [exact H|].
  apply IH. unfold digit_value. lia.
Qed.

Lemma Qplus_nonneg (x y : Q) : 0 <= x -> 0 <= y -> 0 <= x + y.
Proof. intros Hx Hy. apply (Qle_trans _ (0 + 0)); [apply Qle_refl|]. now apply Qplus_le_compat. Qed.

Lemma py_float_simple_nonneg (s : list ascii) : 0 <= py_float_simple s.
Proof.
  unfold py_float_simple. destruct (span_digits s) as [ip r].
  assert (H0 : forall d, 0 <= inject_Z (digits_Z d 0)).
  { intro d. change 0 with (inject_Z 0). rewrite <- Zle_Qle. apply digits_Z_nonneg. lia. }
  destruct r as [|c fp]; [apply H0|].
  apply Qplus_nonneg; [apply H0|].
  unfold Qle; simpl. pose proof (digits_Z_nonneg fp 0 ltac:(lia)). lia.
Qed.

Lemma drop_spaces_suffix (l : list ascii) : exists p, l = app p (drop_spaces l).
Proof.
  induction l as [|c l IH]; simpl; [exists []; reflexivity|].
  destruct (is_py_space c).
  - destruct IH as [p Hp]. exists (c :: p). simpl. congruence.
  - exists []. reflexivity.
Qed.

Lemma search_some (m : list ascii -> option (list ascii * list ascii)) (s g : list ascii) :
  search m s = Some g -> exists p t r, s = app p t /\ m t = Some (g, r).
Proof.
  induction s as [|c s IH]; simpl; intro H.
  - destruct (m []) as [[f r]|] eqn:E; [|discriminate].
    injection H as <-. exists [], [], r. auto.
  - destruct (m (c :: s)) as [[f r]|] eqn:E.
    + injection H as <-. exists [], (c :: s), r. auto.
    + destruct (IH H) as (p & t & r & -> & Ht). exists (c :: p), t, r. auto.
Qed.

(** A matcher that needs a digit at the head finds nothing in a text
    without digits. *)
Lemma search_no_digit (m : list ascii -> option (list ascii * list ascii)) (s : list ascii) :
  (forall t g r, m t = Some (g, r) -> exists c t', t = c :: t' /\ is_digit c = true) ->
  (forall c, In c s -> is_digit c = false) -> search m s = None.
Proof.
  intros Hm Hs. destruct (search m s) as [g|] eqn:E; [|reflexivity].
  destruct (search_some m s g E) as (p & t & r & -> & Ht).
  destruct (Hm _ _ _ Ht) as (c & t' & -> & Hc).
  rewrite Hs in Hc; [discriminate|]. apply in_or_app. right. left. reflexivity.
Qed.

Lemma span_digits_head (s d r : list ascii) (c : ascii) (d' : list ascii) :
  span_digits s = (c :: d', r) -> exists t, s = c :: t /\ is_digit c = true.
Proof.
  pose proof (span_digits_spec s) as Hs. intro E. rewrite E in Hs.
  destruct Hs as (-> & Hd & _). simpl in Hd. apply andb_true_iff in Hd as [Hc _].
  eexists. split; [reflexivity | exact Hc].
Qed.

Lemma match_suffixed_head (f : ascii -> bool) (t g r : list ascii) :
  match_suffixed f t = Some (g, r) -> exists c t', t = c :: t' /\ is_digit c = true.
Proof.
  unfold match_suffixed. destruct (span_digits t) as [[|c d] r0] eqn:E; [discriminate|].
  intros _. destruct (span_digits_head t [] r0 c d E) as (t' & -> & Hc). eauto.
Qed.

Lemma match_decimal_head (t g r : list ascii) :
  match_decimal t = Some (g, r) -> exists c t', t = c :: t' /\ is_digit c = true.
Proof.
  unfold match_decimal. destruct (span_digits t) as [[|c d] r0] eqn:E; [discriminate|].
  intros _. destruct (span_digits_head t [] r0 c d E) as (t' & -> & Hc). eauto.
Qed.

Lemma match_integer_head (t g r : list ascii) :
  match_integer t = Some (g, r) -> exists c t', t = c :: t' /\ is_digit c = true.
Proof.
  unfold match_integer. destruct (span_digits t) as [[|c d] r0] eqn:E; [discriminate|].
  intros _. destruct (span_digits_head t [] r0 c d E) as (t' & -> & Hc). eauto.
Qed.

(** [match_suffixed f] only succeeds on a text holding a character of
    the suffix class. *)
Lemma match_suffixed_class (f : ascii -> bool) (t g r : list ascii) :
  match_suffixed f t = Some (g, r) -> exists x, In x t /\ f x = true.
Proof.
  unfold match_suffixed. pose proof (span_digits_spec t) as Ht.
  destruct (span_digits t) as [d1 r0]. destruct Ht as (-> & _ & _).
  assert (Hsuf : forall (h : list ascii -> list ascii * list ascii) u v,
             option_map h (match drop_spaces u with
                           | c :: t' => if f c then Some t' else None
                           | [] => None end) = Some v ->
             exists x, In x u /\ f x = true).
  { intros h u v H. destruct (drop_spaces_suffix u) as [p Hp].
    destruct (drop_spaces u) as [|c t'] eqn:Ed; [discriminate|].
    destruct (f c) eqn:Ef; [|discriminate].
    exists c. split; [rewrite Hp; apply in_or_app; right; left; reflexivity | exact Ef]. }
  assert (Hin : forall x, In x r0 -> In x (app d1 r0)) by (intros; apply in_or_app; auto).
  destruct d1 as [|c1 d1]; [discriminate|].
  destruct r0 as [|sep r'].
  - intro H. destruct (Hsuf _ [] _ H) as (x & [] & _).
  - destruct (is_sep sep) eqn:Es.
    + pose proof (span_digits_spec r') as Hr. destruct (span_digits r') as [[|c2 d2] r''].
      * intro H. destruct (Hsuf _ (sep :: r') _ H) as (x & Hx & Hfx). eauto.
      * destruct Hr as (Hr & _ & _).
        destruct (option_map (fun t0 => (app (c1 :: d1) (sep :: c2 :: d2), t0))
                   (match drop_spaces r'' with
                    | c :: t' => if f c then Some t' else None
                    | [] => None end)) as [v|] eqn:E1.
        -- intros _. destruct (Hsuf _ r'' v E1) as (x & Hx & Hfx). exists x. split; [|exact Hfx].
           apply Hin. right. rewrite Hr. apply in_or_app. right. exact Hx.
        -- intro H. destruct (Hsuf _ (sep :: r') _ H) as (x & Hx & Hfx). eauto.
    + intro H. destruct (Hsuf _ (sep :: r') _ H) as (x & Hx & Hfx). eauto.
Qed.

Lemma replace_char_kept (w c : ascii) (l : list ascii) :
  pot_kept w = false -> (forall x, In x l -> pot_kept x = true) -> replace_char w c l = l.
Proof.
  intros Hw Hl. unfold replace_char. induction l as [|x l IH]; [reflexivity|]. simpl.
  destruct (Ascii.eqb x w) eqn:E.
  - apply Ascii.eqb_eq in E. subst. rewrite (Hl w (or_introl eq_refl)) in Hw. discriminate.
  - f_equal. apply IH. intros y Hy. apply Hl. right. exact Hy.
Qed.

(** None of the corrected letters survives [pot_kept], so the character
    corrections leave a filtered text unchanged. *)
Lemma corrections_kept (l : list ascii) :
  (forall x, In x l -> pot_kept x = true) -> _apply_character_corrections l = l.
Proof.
  intro Hl. unfold _apply_character_corrections, character_corrections. cbn [fold_left].
  repeat (rewrite (replace_char_kept _ _ l); [|reflexivity|exact Hl]). reflexivity.
Qed.

Lemma filter_kept (l : list ascii) : forall x, In x (filter pot_kept l) -> pot_kept x = true.
Proof. intros x Hx. apply filter_In in Hx. apply Hx. Qed.

Lemma fix_no_digit (l : list ascii) :
  (forall c, In c l -> is_digit c = false) -> _fix_common_pot_errors l = l.
Proof.
  intro Hl. unfold _fix_common_pot_errors.
  destruct l as [|c t]; [reflexivity|].
  assert (Hc : is_digit c = false) by (apply Hl; left; reflexivity).
  destruct (Ascii.eqb c "7"%char) eqn:E7.
  { apply Ascii.eqb_eq in E7. subst. discriminate. }
  destruct (Ascii.eqb c "0"%char) eqn:E0.
  { apply Ascii.eqb_eq in E0. subst. discriminate. }
  assert (Hpat : match c :: t with
          | "7"%char :: t0 =>
              let '(d1, r) := span_digits t0 in
              match r with
              | ","%char :: d2 =>
                  if negb (List.length d1 =? 0)%nat && negb (List.length d2 =? 0)%nat
                     && all_digits d2
                  then Some ("0"%char :: ","%char :: d2) else None
              | _ => None
              end
          | _ => None end = None).
  { destruct c as [[] [] [] [] [] [] [] []]; try reflexivity; discriminate. }
  rewrite Hpat.
  destruct c as [[] [] [] [] [] [] [] []]; try reflexivity; discriminate.
Qed.

Lemma Qmult_pos_nonneg (x : Q) (k : Q) : 0 <= x -> 0 <= k -> 0 <= x * k.
Proof. intros; apply Qmult_le_0_compat; assumption. Qed.

(** X1: A money value read by [_normalize_money_value] is never negative. *)
Theorem normalize_money_value_nonneg (text : string) (v : Q) :
  _normalize_money_value text = Some v -> 0 <= v.
Proof.
  unfold _normalize_money_value.
  destruct (list_ascii_of_string text) as [|c0 s0]; [discriminate|].
  destruct (_apply_character_corrections (filter pot_kept (c0 :: s0))); [discriminate|].
  destruct (search (match_suffixed is_k) _) as [g|].
  { intro H; injection H as <-. apply Qmult_pos_nonneg; [apply py_float_simple_nonneg|discriminate]. }
  destruct (search (match_suffixed is_m) _) as [g|].
  { intro H; injection H as <-. apply Qmult_pos_nonneg; [apply py_float_simple_nonneg|discriminate]. }
  destruct (search match_decimal _) as [g|].
  { intro H; injection H as <-. apply py_float_simple_nonneg. }
  destruct (search match_integer _) as [g|]; [|discriminate].
  intro H; injection H as <-. apply py_float_simple_nonneg.
Qed.

Lemma normalize_money_value_nonneg_witness :
  _normalize_money_value "Pot: 1,5k" = Some (15000 # 10) /\ 0 <= 15000 # 10.
Proof.
  split; [vm_compute; reflexivity|].
  apply (normalize_money_value_nonneg "Pot: 1,5k"). vm_compute. reflexivity.
Defined.




(** X3: A text without a digit gives no money value. *)
Theorem normalize_money_value_no_digit (text : string) :
  (forall c, In c (list_ascii_of_string text) -> is_digit c = false) ->
  _normalize_money_value text = None.
Proof.
  intro Hd. unfold _normalize_money_value.
  destruct (list_ascii_of_string text) as [|c0 s0] eqn:Es; [reflexivity|].
  rewrite corrections_kept by apply filter_kept.
  destruct (filter pot_kept (c0 :: s0)) as [|x l] eqn:Ef; [reflexivity|].
  assert (Hl : forall c, In c (x :: l) -> is_digit c = false).
  { intros c Hin. rewrite <- Ef in Hin. apply filter_In in Hin. apply Hd. apply Hin. }
  rewrite fix_no_digit by exact Hl.
  rewrite (search_no_digit _ _ (match_suffixed_head is_k)) by exact Hl.
  rewrite (search_no_digit _ _ (match_suffixed_head is_m)) by exact Hl.
  rewrite (search_no_digit _ _ match_decimal_head) by exact Hl.
  rewrite (search_no_digit _ _ match_integer_head) by exact Hl.
  reflexivity.
Qed.

Lemma normalize_money_value_no_digit_witness :
  _normalize_money_value "Pot: none" = None.
Proof.
  apply normalize_money_value_no_digit. intros c Hc. simpl in Hc.
  repeat (destruct Hc as [<-|Hc]; [reflexivity|]). destruct Hc.
Defined.

Lemma search_class_none (f : ascii -> bool) (s : list ascii) :
  (forall x, In x s -> f x = false) -> search (match_suffixed f) s = None.
Proof.
  intro Hs. destruct (search (match_suffixed f) s) as [g|] eqn:E; [|reflexivity].
  destruct (search_some _ s g E) as (p & t & r & -> & Ht).
  destruct (match_suffixed_class f t g r Ht) as (x & Hx & Hfx).
  rewrite Hs in Hfx; [discriminate|]. apply in_or_app. right. exact Hx.
Qed.

Lemma digits_no_comma (d : list ascii) :
  forallb is_digit d = true -> forall x, In x d -> is_digit x = true.
Proof. intros H x Hx. rewrite forallb_forall in H. auto. Qed.

(** A text whose last character is not a digit is never rewritten by
    [_fix_common_pot_errors]. *)
Lemma fix_last_nondigit (l : list ascii) (c : ascii) :
  is_digit c = false -> _fix_common_pot_errors (app l [c]) = app l [c].
Proof.
  intro Hc. unfold _fix_common_pot_errors.
  assert (Hall : forall p q, app l [c] = app p q -> q <> [] -> all_digits q = false).
  { intros p q E Hq. unfold all_digits.
    destruct (forallb is_digit q) eqn:F; [|reflexivity].
    destruct q as [|y q'] using rev_ind; [congruence|].
    rewrite app_assoc in E. apply app_inj_tail in E as [_ ->].
    rewrite forallb_app in F. simpl in F. rewrite Hc in F.
    rewrite andb_false_r in F. discriminate. }
  assert (Hpat : match app l [c] with
          | "7"%char :: t0 =>
              let '(d1, r) := span_digits t0 in
              match r with
              | ","%char :: d2 =>
                  if negb (List.length d1 =? 0)%nat && negb (List.length d2 =? 0)%nat
                     && all_digits d2
                  then Some ("0"%char :: ","%char :: d2) else None
              | _ => None
              end
          | _ => None end = None).
  { destruct (app l [c]) as [|x t] eqn:E; [reflexivity|].
    destruct x as [[] [] [] [] [] [] [] []]; try reflexivity.
    pose proof (span_digits_spec t) as Ht. destruct (span_digits t) as [d1 r].
    destruct Ht as (Ht & _ & _). destruct r as [|y d2]; [reflexivity|].
    destruct y as [[] [] [] [] [] [] [] []]; try reflexivity.
    destruct d2 as [|z d2]; [rewrite andb_false_r; reflexivity|].
    rewrite (Hall ("7"%char :: app d1 [","%char]) (z :: d2)); [rewrite andb_false_r; reflexivity| |discriminate].
    try rewrite E; rewrite Ht; simpl. rewrite <- app_assoc. reflexivity. }
  rewrite Hpat.
  destruct (app l [c]) as [|x t] eqn:E; [reflexivity|].
  destruct x as [[] [] [] [] [] [] [] []]; try reflexivity.
  destruct t as [|y t]; [reflexivity|].
  destruct y as [[] [] [] [] [] [] [] []]; try reflexivity.
  destruct t as [|a t]; [reflexivity|]. destruct t as [|b t]; [reflexivity|].
  destruct t as [|z t].
  - destruct (is_digit a && is_digit b && all_digits []); reflexivity.
  - rewrite (Hall ["0"%char; ","%char; a; b] (z :: t)); [|reflexivity|discriminate].
    rewrite andb_false_r. reflexivity.
Qed.

Lemma search_head (m : list ascii -> option (list ascii * list ascii)) (s g r : list ascii) :
  m s = Some (g, r) -> search m s = Some g.
Proof. intro H. destruct s; simpl; rewrite H; reflexivity. Qed.

Lemma match_suffixed_at (f : ascii -> bool) (d1 frac : list ascii) (c : ascii) :
  d1 <> [] -> forallb is_digit d1 = true -> money_fraction frac ->
  f c = true -> is_digit c = false -> is_sep c = false -> is_py_space c = false ->
  match_suffixed f (app d1 (app frac [c])) = Some (app d1 frac, []).
Proof.
  intros Hd1 Hdd Hfr Hf Hc Hcs Hsp. unfold match_suffixed.
  destruct Hfr as [-> | (sep & d2 & -> & Hsep & Hd2 & Hdd2)].
  - rewrite app_nil_l, (span_digits_app d1 [c] Hdd Hc). destruct d1 as [|x d1]; [congruence|].
    simpl. rewrite Hcs, Hsp, Hf. simpl. rewrite app_nil_r. reflexivity.
  - assert (Hsd : is_digit sep = false).
    { unfold is_sep in Hsep. apply orb_true_iff in Hsep as [E|E]; apply Ascii.eqb_eq in E; subst; reflexivity. }
    rewrite <- app_comm_cons, (span_digits_app d1 (sep :: app d2 [c]) Hdd Hsd).
    destruct d1 as [|x d1]; [congruence|]. simpl. rewrite Hsep.
    rewrite (span_digits_app d2 [c] Hdd2 Hc). destruct d2 as [|y d2]; [congruence|].
    simpl. rewrite Hsp, Hf. reflexivity.
Qed.

Lemma in_money_text (d1 frac : list ascii) (c x : ascii) :
  forallb is_digit d1 = true -> money_fraction frac -> In x (app d1 (app frac [c])) ->
  is_digit x = true \/ is_sep x = true \/ x = c.
Proof.
  intros Hdd Hfr Hx. apply in_app_or in Hx as [Hx|Hx].
  - left. rewrite forallb_forall in Hdd. auto.
  - apply in_app_or in Hx as [Hx|[Hx|[]]]; [|auto].
    destruct Hfr as [->|(sep & d2 & -> & Hsep & _ & Hdd2)]; [destruct Hx|].
    destruct Hx as [<-|Hx]; [auto|]. left. rewrite forallb_forall in Hdd2. auto.
Qed.

(** X4: k/K and m/M after a number scale it by a thousand and a million. *)
Theorem normalize_money_value_suffix (d1 frac : list ascii) (c : ascii) :
  d1 <> [] -> forallb is_digit d1 = true -> money_fraction frac ->
  is_k c || is_m c = true ->
  _normalize_money_value (string_of_list_ascii (app d1 (app frac [c]))) =
  Some (py_float_simple (replace_char ","%char "."%char (app d1 frac)) *
        (if is_k c then 1000 else 1000000)).
Proof.
  intros Hd1 Hdd Hfr Hc.
  assert (Hc' : is_digit c = false /\ is_sep c = false /\ is_py_space c = false /\ pot_kept c = true).
  { apply orb_true_iff in Hc as [E|E]; unfold is_k, is_m in E;
      apply orb_true_iff in E as [E|E]; apply Ascii.eqb_eq in E; subst; repeat split; reflexivity. }
  destruct Hc' as (Hcd & Hcs & Hsp & Hck).
  unfold _normalize_money_value. rewrite list_ascii_of_string_of_list_ascii.
  set (s := app d1 (app frac [c])).
  assert (Hkept : filter pot_kept s = s).
  { apply forallb_filter_id. apply forallb_forall. intros x Hx.
    destruct (in_money_text d1 frac c x Hdd Hfr Hx) as [H|[H| ->]]; [| |exact Hck].
    - unfold pot_kept. rewrite H. reflexivity.
    - unfold is_sep in H. apply orb_true_iff in H as [E|E]; apply Ascii.eqb_eq in E; subst; reflexivity. }
  assert (Hs : exists y s', s = y :: s') by (destruct d1 as [|y d1]; [congruence|]; eexists _, _; reflexivity).
  destruct Hs as (y & s' & Hs).
  rewrite Hkept, corrections_kept.
  2:{ intros x Hx. rewrite <- Hkept in Hx. apply filter_In in Hx. apply Hx. }
  rewrite Hs. cbv beta iota zeta. rewrite <- Hs. unfold s. rewrite app_assoc, fix_last_nondigit by exact Hcd.
  rewrite <- app_assoc.
  destruct (is_k c) eqn:Ek.
  - rewrite (search_head _ _ _ _ (match_suffixed_at is_k d1 frac c Hd1 Hdd Hfr Ek Hcd Hcs Hsp)).
    reflexivity.
  - rewrite search_class_none.
    2:{ intros x Hx. destruct (in_money_text d1 frac c x Hdd Hfr Hx) as [H|[H| ->]]; [| |exact Ek].
        - destruct (is_k x) eqn:E; [|reflexivity]. unfold is_k in E.
          apply orb_true_iff in E as [E|E]; apply Ascii.eqb_eq in E; subst; discriminate.
        - destruct (is_k x) eqn:E; [|reflexivity]. unfold is_k in E.
          apply orb_true_iff in E as [E|E]; apply Ascii.eqb_eq in E; subst; discriminate. }
    simpl in Hc.
    rewrite (search_head _ _ _ _ (match_suffixed_at is_m d1 frac c Hd1 Hdd Hfr Hc Hcd Hcs Hsp)).
    reflexivity.
Qed.

Lemma normalize_money_value_suffix_witness :
  _normalize_money_value (string_of_list_ascii (app ["1"; "2"]%char (app [","; "5"]%char ["k"%char]))) =
  Some (py_float_simple (replace_char ","%char "."%char (app ["1"; "2"]%char [","; "5"]%char)) *
        (if is_k "k"%char then 1000 else 1000000)).
Proof.
  apply normalize_money_value_suffix.
  - discriminate.
  - reflexivity.
  - right. exists ","%char, ["5"%char]. split; [reflexivity|]. split; [reflexivity|].
    split; [discriminate | reflexivity].
  - reflexivity.
Defined.

(** ** [extract_pot_value] *)

Lemma replace_char_absent (w c : ascii) (l : list ascii) :
  ~ In w l -> replace_char w c l = l.
Proof.
  intro Hw. unfold replace_char. induction l as [|x l IH]; [reflexivity|]. simpl.
  destruct (Ascii.eqb x w) eqn:E.
  - apply Ascii.eqb_eq in E. subst. destruct Hw. left. reflexivity.
  - f_equal. apply IH. intro H. apply Hw. right. exact H.
Qed.

Lemma corrections_kept_or_space (l : list ascii) :
  (forall x, In x l -> kept_or_space x = true) -> _apply_character_corrections l = l.
Proof.
  intro Hl.
  assert (Hw : forall w c, kept_or_space w = false -> replace_char w c l = l).
  { intros w c Hw. apply replace_char_absent. intro H. rewrite (Hl w H) in Hw. discriminate. }
  unfold _apply_character_corrections, character_corrections. cbn [fold_left].
  rewrite (Hw "O"%char "0"%char), (Hw "o"%char "0"%char), (Hw "I"%char "1"%char), (Hw "l"%char "1"%char), (Hw "S"%char "5"%char), (Hw "s"%char "5"%char), (Hw "B"%char "8"%char), (Hw "b"%char "8"%char), (Hw "G"%char "6"%char), (Hw "g"%char "6"%char) by reflexivity. reflexivity.
Qed.

Lemma blank_kept_or_space (l : list ascii) :
  forall x, In x (map (fun c => if pot_kept c then c else " "%char) l) -> kept_or_space x = true.
Proof.
  intros x Hx. apply in_map_iff in Hx as (y & <- & _). unfold kept_or_space.
  destruct (pot_kept y) eqn:E; [rewrite E; reflexivity | reflexivity].
Qed.

Lemma findall_no_digit (m : list ascii -> option (list ascii * list ascii)) :
  (forall t g r, m t = Some (g, r) -> exists c t', t = c :: t' /\ is_digit c = true) ->
  forall fuel s, (forall c, In c s -> is_digit c = false) -> findall m fuel s = [].
Proof.
  intros Hm fuel. induction fuel as [|fuel IH]; intros s Hs; [reflexivity|].
  simpl. destruct s as [|c s']; [reflexivity|].
  destruct (m (c :: s')) as [[g r]|] eqn:E.
  - destruct (Hm _ _ _ E) as (c' & t' & Ht & Hd). injection Ht as -> ->.
    rewrite (Hs c' (or_introl eq_refl)) in Hd. discriminate.
  - apply IH. intros x Hx. apply Hs. right. exact Hx.
Qed.

(** X5: [extract_pot_value] never returns a negative pot. *)
Theorem extract_pot_value_nonneg (txt : string) : 0 <= extract_pot_value txt.
Proof.
  unfold extract_pot_value. destruct (list_ascii_of_string txt); [discriminate|].
  destruct (rev (findall match_decimal _ _)) as [|g _]; [|apply py_float_simple_nonneg].
  destruct (rev (findall match_integer _ _)) as [|g _]; [discriminate|apply py_float_simple_nonneg].
Qed.

(** X6: A text without a digit gives a pot of 0. *)
Theorem extract_pot_value_no_digit (txt : string) :
  (forall c, In c (list_ascii_of_string txt) -> is_digit c = false) ->
  extract_pot_value txt == 0.
Proof.
  intro Hd. unfold extract_pot_value.
  destruct (list_ascii_of_string txt) as [|c0 s0] eqn:Es; [reflexivity|].
  rewrite corrections_kept_or_space by apply blank_kept_or_space.
  set (l := map (fun c => if pot_kept c then c else " "%char) (c0 :: s0)).
  assert (Hl : forall c, In c l -> is_digit c = false).
  { intros c Hc. apply in_map_iff in Hc as (y & <- & Hy).
    destruct (pot_kept y); [apply Hd; exact Hy | reflexivity]. }
  rewrite fix_no_digit by exact Hl.
  rewrite (findall_no_digit _ match_decimal_head _ _ Hl).
  rewrite (findall_no_digit _ match_integer_head _ _ Hl). reflexivity.
Qed.

Lemma extract_pot_value_no_digit_witness :
  extract_pot_value "Pot: none" == 0.
Proof.
  apply extract_pot_value_no_digit. intros c Hc. simpl in Hc.
  repeat (destruct Hc as [<-|Hc]; [reflexivity|]). destruct Hc.
Defined.

Lemma forallb_digits_notin (d : list ascii) (x : ascii) :
  forallb is_digit d = true -> is_digit x = false -> ~ In x d.
Proof. intros Hd Hx Hin. rewrite forallb_forall in Hd. rewrite (Hd x Hin) in Hx. discriminate. Qed.

(** The anchored patterns of [_fix_common_pot_errors] only cover texts
    made of digits and commas. *)
Lemma fix_other_char (l : list ascii) (x : ascii) :
  In x l -> is_digit x = false -> x <> ","%char -> _fix_common_pot_errors l = l.
Proof.
  intros Hx Hd Hc. unfold _fix_common_pot_errors.
  destruct l as [|c t]; [reflexivity|].
  assert (Hpat : match c :: t with
          | "7"%char :: t0 =>
              let '(d1, r) := span_digits t0 in
              match r with
              | ","%char :: d2 =>
                  if negb (List.length d1 =? 0)%nat && negb (List.length d2 =? 0)%nat
                     && all_digits d2
                  then Some ("0"%char :: ","%char :: d2) else None
              | _ => None
              end
          | _ => None end = None).
  { destruct c as [[] [] [] [] [] [] [] []]; try reflexivity.
    pose proof (span_digits_spec t) as Ht. destruct (span_digits t) as [d1 r].
    destruct Ht as (Ht & Hd1 & _). destruct r as [|y d2]; [reflexivity|].
    destruct y as [[] [] [] [] [] [] [] []]; try reflexivity.
    replace (all_digits d2) with false; [rewrite andb_false_r; reflexivity|].
    symmetry. unfold all_digits. apply not_true_iff_false. intro Hd2.
    rewrite Ht in Hx. destruct Hx as [Hx|Hx]; [subst; discriminate|].
    apply in_app_or in Hx as [Hx|[Hx|Hx]].
    - exact (forallb_digits_notin d1 x Hd1 Hd Hx).
    - congruence.
    - exact (forallb_digits_notin d2 x Hd2 Hd Hx). }
  rewrite Hpat.
  destruct c as [[] [] [] [] [] [] [] []]; try reflexivity.
  destruct t as [|y t]; [reflexivity|].
  destruct y as [[] [] [] [] [] [] [] []]; try reflexivity.
  destruct t as [|a t]; [reflexivity|]. destruct t as [|b t]; [reflexivity|].
  destruct (is_digit a) eqn:Ea; [|reflexivity]. destruct (is_digit b) eqn:Eb; [|reflexivity].
  replace (all_digits t) with false; [reflexivity|].
  symmetry. unfold all_digits. apply not_true_iff_false. intro Ht.
  destruct Hx as [Hx|[Hx|[Hx|[Hx|Hx]]]]; subst; try discriminate; try congruence.
  exact (forallb_digits_notin t x Ht Hd Hx).
Qed.

Lemma app_split_absent (x : ascii) (g r a q : list ascii) :
  app g r = app a (x :: q) -> ~ In x g -> exists a', a = app g a' /\ r = app a' (x :: q).
Proof.
  revert a. induction g as [|y g IH]; intros a E Hg.
  - exists a. auto.
  - destruct a as [|z a]; simpl in E; injection E as -> E.
    + destruct Hg. left. reflexivity.
    + destruct (IH a E) as (a' & -> & ->); [intro H; apply Hg; right; exact H|].
      exists a'. auto.
Qed.

Section Findall.

Variable m : list ascii -> option (list ascii * list ascii).

(** The matcher returns what it matched, non-empty and free of spaces,
    followed by what it left, and fails at a space. *)
Hypothesis m_split : forall t g r, m t = Some (g, r) ->
  t = app g r /\ g <> [] /\ ~ In " "%char g.
Hypothesis m_space : forall q, m (" "%char :: q) = None.

Lemma findall_fuel (f1 f2 : nat) (s : list ascii) :
  (List.length s <= f1)%nat -> (List.length s <= f2)%nat -> findall m f1 s = findall m f2 s.
Proof.
  revert f2 s. induction f1 as [|f1 IH]; intros f2 s H1 H2.
  - destruct s; [destruct f2; reflexivity | simpl in H1; lia].
  - destruct f2 as [|f2]; [destruct s; [reflexivity | simpl in H2; lia]|].
    simpl. destruct s as [|c s']; [reflexivity|].
    destruct (m (c :: s')) as [[g r]|] eqn:E.
    + destruct (m_split _ _ _ E) as (Ht & Hg & _). f_equal.
      assert (Hl : List.length (c :: s') = (List.length g + List.length r)%nat)
        by (rewrite Ht; apply length_app).
      destruct g; [congruence|]. simpl in Hl, H1, H2. apply IH; lia.
    + simpl in H1, H2. apply IH; lia.
Qed.

Lemma findall_space_split (n : nat) (p q : list ascii) (fuel : nat) :
  (List.length p <= n)%nat -> (List.length (app p (" "%char :: q)) <= fuel)%nat ->
  exists X, findall m fuel (app p (" "%char :: q)) = app X (findall m (List.length q) q).
Proof.
  revert p fuel. induction n as [|n IH]; intros p fuel Hp Hf;
    (destruct fuel as [|fuel]; [rewrite length_app in Hf; simpl in Hf; lia|]).
  - destruct p; [|simpl in Hp; lia]. exists []. simpl. rewrite m_space.
    apply findall_fuel; simpl in Hf; lia.
  - destruct p as [|c p].
    + exists []. simpl. rewrite m_space. apply findall_fuel; simpl in Hf; lia.
    + simpl. destruct (m (c :: app p (" "%char :: q))) as [[g r]|] eqn:E.
      * destruct (m_split _ _ _ E) as (Ht & Hg & Hsp).
        destruct (app_split_absent " "%char g r (c :: p) q (eq_sym Ht) Hsp) as (a' & Ha & ->).
        assert (Hl : List.length (c :: p) = (List.length g + List.length a')%nat)
          by (rewrite Ha; apply length_app).
        destruct g as [|y g]; [congruence|].
        assert (H1 : (List.length a' <= n)%nat) by (simpl in Hl, Hp; lia).
        assert (H2 : (List.length (app a' (" "%char :: q)) <= fuel)%nat)
          by (rewrite length_app in Hf |- *; simpl in Hf, Hl |- *; lia).
        destruct (IH a' fuel H1 H2) as [X HX].
        exists ((y :: g) :: X). rewrite HX. reflexivity.
      * assert (H1 : (List.length p <= n)%nat) by (simpl in Hp; lia).
        assert (H2 : (List.length (app p (" "%char :: q)) <= fuel)%nat)
          by (rewrite length_app in Hf |- *; simpl in Hf |- *; lia).
        destruct (IH p fuel H1 H2) as [X HX].
        exists X. exact HX.
Qed.

End Findall.

Lemma span_digits_no_space (s d r : list ascii) :
  span_digits s = (d, r) -> ~ In " "%char d.
Proof.
  intro E. pose proof (span_digits_spec s) as Hs. rewrite E in Hs. destruct Hs as (_ & Hd & _).
  apply forallb_digits_notin; [exact Hd | reflexivity].
Qed.

Lemma match_decimal_split (t g r : list ascii) :
  match_decimal t = Some (g, r) -> t = app g r /\ g <> [] /\ ~ In " "%char g.
Proof.
  unfold match_decimal. pose proof (span_digits_spec t) as Ht.
  destruct (span_digits t) as [d1 r0] eqn:E1. destruct Ht as (Ht & Hd1 & _).
  destruct d1 as [|c1 d1]; [discriminate|]. destruct r0 as [|sep r']; [discriminate|].
  destruct (Ascii.eqb sep "."%char || Ascii.eqb sep ","%char) eqn:Es; [|discriminate].
  pose proof (span_digits_spec r') as Hr. destruct (span_digits r') as [d2 r''] eqn:E2.
  destruct Hr as (Hr & Hd2 & _). destruct d2 as [|c2 d2]; [discriminate|].
  intro H. injection H as <- <-. split; [|split; [discriminate|]].
  - rewrite Ht, Hr. simpl. rewrite <- app_assoc. reflexivity.
  - intro H. change (In " "%char (app (c1 :: d1) (sep :: c2 :: d2))) in H. apply in_app_or in H as [H|[H|H]].
    + exact (span_digits_no_space _ _ _ E1 H).
    + subst. discriminate.
    + exact (span_digits_no_space _ _ _ E2 H).
Qed.

Lemma match_decimal_space (q : list ascii) : match_decimal (" "%char :: q) = None.
Proof. reflexivity. Qed.

Lemma match_decimal_number (d1 d2 : list ascii) (sep : ascii) :
  d1 <> [] -> forallb is_digit d1 = true -> is_sep sep = true ->
  d2 <> [] -> forallb is_digit d2 = true ->
  match_decimal (app d1 (sep :: d2)) = Some (app d1 (sep :: d2), []).
Proof.
  intros Hd1 Hdd1 Hs Hd2 Hdd2. unfold match_decimal.
  assert (Hsd : is_digit sep = false).
  { unfold is_sep in Hs. apply orb_true_iff in Hs as [E|E]; apply Ascii.eqb_eq in E; subst; reflexivity. }
  rewrite (span_digits_app d1 (sep :: d2) Hdd1 Hsd).
  rewrite <- (app_nil_r d2), (span_digits_app d2 [] Hdd2 I), app_nil_r.
  destruct d1; [congruence|]. unfold is_sep in Hs. rewrite Hs.
  destruct d2; [congruence|]. reflexivity.
Qed.

(** X7: The last decimal number of the text is the pot, whatever comes
    before it. *)
Theorem extract_pot_value_last_decimal (p d1 d2 : list ascii) (sep : ascii) :
  d1 <> [] -> forallb is_digit d1 = true -> is_sep sep = true ->
  d2 <> [] -> forallb is_digit d2 = true ->
  extract_pot_value (string_of_list_ascii (app p (" "%char :: app d1 (sep :: d2)))) ==
  py_float_simple (replace_char ","%char "."%char (app d1 (sep :: d2))).
Proof.
  intros Hd1 Hdd1 Hs Hd2 Hdd2. unfold extract_pot_value.
  rewrite list_ascii_of_string_of_list_ascii.
  assert (Hdec : match_decimal (app d1 (sep :: d2)) = Some (app d1 (sep :: d2), []))
    by exact (match_decimal_number d1 d2 sep Hd1 Hdd1 Hs Hd2 Hdd2).
  assert (Hq : forall x, In x (app d1 (sep :: d2)) -> pot_kept x = true).
  { intros x Hx. apply in_app_or in Hx as [Hx|[<-|Hx]].
    - rewrite forallb_forall in Hdd1. unfold pot_kept. rewrite (Hdd1 x Hx). reflexivity.
    - unfold is_sep in Hs. apply orb_true_iff in Hs as [E|E]; apply Ascii.eqb_eq in E; subst; reflexivity.
    - rewrite forallb_forall in Hdd2. unfold pot_kept. rewrite (Hdd2 x Hx). reflexivity. }
  remember (app d1 (sep :: d2)) as q eqn:Eq. clear Eq.
  destruct (app p (" "%char :: q)) as [|c0 s0] eqn:Es; [destruct p; discriminate|].
  rewrite <- Es, corrections_kept_or_space by (rewrite Es; apply blank_kept_or_space).
  assert (Hmap : map (fun c => if pot_kept c then c else " "%char) (app p (" "%char :: q)) =
                 app (map (fun c => if pot_kept c then c else " "%char) p) (" "%char :: q)).
  { rewrite map_app. f_equal. simpl. f_equal. clear -Hq. induction q as [|x q IH]; [reflexivity|].
    simpl. rewrite (Hq x (or_introl eq_refl)). f_equal. apply IH. intros y Hy. apply Hq. right. exact Hy. }
  rewrite Hmap.
  set (bp := map (fun c => if pot_kept c then c else " "%char) p).
  rewrite (fix_other_char _ " "%char); [| apply in_or_app; right; left; reflexivity | reflexivity | discriminate].
  destruct (findall_space_split match_decimal match_decimal_split match_decimal_space
              (List.length bp) bp q (List.length (app bp (" "%char :: q))) (le_n _) (le_n _)) as [X HX].
  rewrite HX.
  replace (findall match_decimal (List.length q) q) with [q].
  2:{ destruct q as [|x q']; [discriminate|]. simpl. rewrite Hdec.
      destruct (List.length q'); reflexivity. }
  rewrite rev_app_distr. simpl. reflexivity.
Qed.

Lemma extract_pot_value_last_decimal_witness :
  extract_pot_value (string_of_list_ascii
    (app (list_ascii_of_string "Pot 1.5 total")
         (" "%char :: app ["1"; "2"]%char (","%char :: ["7"; "5"]%char)))) ==
  py_float_simple (replace_char ","%char "."%char (app ["1"; "2"]%char (","%char :: ["7"; "5"]%char))).
Proof.
  apply extract_pot_value_last_decimal;
    [discriminate | reflexivity | reflexivity | discriminate | reflexivity].
Defined.

(** ** [_normalize_name] *)

Lemma drop_spaces_head (l : list ascii) :
  forall c t, drop_spaces l = c :: t -> is_py_space c = false.
Proof.
  induction l as [|x l IH]; simpl; intros c t E; [discriminate|].
  destruct (is_py_space x) eqn:Ex; [exact (IH c t E)|]. injection E as <- _. exact Ex.
Qed.

Lemma drop_spaces_id (l : list ascii) :
  (forall c t, l = c :: t -> is_py_space c = false) -> drop_spaces l = l.
Proof. destruct l as [|c t]; intro H; [reflexivity|]. simpl. rewrite (H c t eq_refl). reflexivity. Qed.

Lemma strip_list_in (l : list ascii) (x : ascii) : In x (strip_list l) -> In x l.
Proof.
  unfold strip_list. intro H. apply in_rev in H.
  destruct (drop_spaces_suffix (rev (drop_spaces l))) as [p Hp].
  assert (H1 : In x (rev (drop_spaces l))) by (rewrite Hp; apply in_or_app; right; exact H).
  apply in_rev in H1. destruct (drop_spaces_suffix l) as [p' Hp'].
  rewrite Hp'. apply in_or_app. right. exact H1.
Qed.

Lemma strip_list_first (l : list ascii) :
  forall c t, strip_list l = c :: t -> is_py_space c = false.
Proof.
  unfold strip_list. intros c t E.
  destruct (drop_spaces_suffix (rev (drop_spaces l))) as [p Hp].
  remember (drop_spaces (rev (drop_spaces l))) as r eqn:Er.
  assert (Hd : drop_spaces l = app (rev r) (rev p)).
  { rewrite <- (rev_involutive (drop_spaces l)), Hp, rev_app_distr. reflexivity. }
  rewrite E in Hd. exact (drop_spaces_head l c _ Hd).
Qed.

Lemma strip_list_last (l : list ascii) :
  forall c t, strip_list l = app t [c] -> is_py_space c = false.
Proof.
  unfold strip_list. intros c t E.
  apply (f_equal (@rev ascii)) in E. rewrite rev_involutive, rev_app_distr in E.
  exact (drop_spaces_head _ c _ E).
Qed.

Lemma strip_list_id (l : list ascii) :
  (forall c t, l = c :: t -> is_py_space c = false) ->
  (forall c t, l = app t [c] -> is_py_space c = false) -> strip_list l = l.
Proof.
  intros Hf Hl. unfold strip_list. rewrite (drop_spaces_id l Hf).
  rewrite drop_spaces_id; [apply rev_involutive|].
  intros c t E. apply (Hl c (rev t)). rewrite <- (rev_involutive l), E. reflexivity.
Qed.

Lemma normalize_name_some (f : nat -> Q) (text n : string) :
  _normalize_name f text = Some n ->
  exists s0 c s, list_ascii_of_string text = s0 /\
    strip_list (filter name_kept s0) = c :: s /\
    list_ascii_of_string n = c :: s /\
    (2 <= List.length (c :: s))%nat /\
    Qltb (f (List.length (c :: s))) (inject_Z (Z.of_nat (List.length (filter is_digit (c :: s))))) = false.
Proof.
  unfold _normalize_name.
  destruct (list_ascii_of_string text) as [|x0 s0] eqn:Es; [discriminate|].
  destruct (strip_list (filter name_kept (x0 :: s0))) as [|c s] eqn:Ec; [discriminate|].
  change (_apply_name_corrections (c :: s)) with (c :: s).
  destruct (List.length (c :: s) <? 2)%nat eqn:El; [discriminate|].
  destruct (Qltb _ _) eqn:Eq; [discriminate|].
  intro H. injection H as <-. exists (x0 :: s0), c, s.
  split; [reflexivity|]. split; [exact Ec|]. split; [exact (list_ascii_of_string_of_list_ascii (c :: s))|]. apply Nat.ltb_ge in El. auto.
Qed.

Lemma normalize_name_shape_of (f : nat -> Q) (text n : string) :
  _normalize_name f text = Some n -> name_shape (list_ascii_of_string n).
Proof.
  intro H. destruct (normalize_name_some f text n H) as (s0 & c & s & _ & Ec & -> & Hl & _).
  split; [exact Hl|]. split; [|split].
  - apply forallb_forall. intros x Hx. rewrite <- Ec in Hx. apply strip_list_in in Hx.
    apply filter_In in Hx. apply Hx.
  - rewrite <- Ec. apply strip_list_first.
  - rewrite <- Ec. apply strip_list_last.
Qed.

(** X8: A normalized name has at least two characters, only letters, digits,
    blanks and [-], and no blank at either end. *)
Theorem normalize_name_shape (f : nat -> Q) (text n : string) :
  _normalize_name f text = Some n -> name_shape (list_ascii_of_string n).
Proof. exact (normalize_name_shape_of f text n). Qed.

(** X9: Normalizing a normalized name gives it back unchanged. *)
Theorem normalize_name_idempotent (f : nat -> Q) (text n : string) :
  _normalize_name f text = Some n -> _normalize_name f n = Some n.
Proof.
  intro H. pose proof (normalize_name_shape_of f text n H) as (Hl & Hk & Hf & Hlast).
  destruct (normalize_name_some f text n H) as (s0 & c & s & _ & _ & Hn & _ & Hq).
  unfold _normalize_name. rewrite Hn in *.
  rewrite (forallb_filter_id name_kept (c :: s) Hk), strip_list_id by assumption.
  change (_apply_name_corrections (c :: s)) with (c :: s).
  replace (List.length (c :: s) <? 2)%nat with false by (symmetry; apply Nat.ltb_ge; exact Hl).
  rewrite Hq. rewrite <- Hn, string_of_list_ascii_of_string. reflexivity.
Qed.

Lemma normalize_name_idempotent_witness :
  _normalize_name (fun n => inject_Z (Z.of_nat n) * (7 # 10)) "Player-1" = Some "Player-1".
Proof.
  apply (normalize_name_idempotent (fun n => inject_Z (Z.of_nat n) * (7 # 10)) "  Player-1! ").
  vm_compute. reflexivity.
Defined.

Lemma normalize_name_shape_witness :
  _normalize_name (fun n => inject_Z (Z.of_nat n) * (7 # 10)) "  Player-1! " = Some "Player-1" /\
  name_shape (list_ascii_of_string "Player-1").
Proof.
  split; [vm_compute; reflexivity|].
  apply (normalize_name_shape (fun n => inject_Z (Z.of_nat n) * (7 # 10)) "  Player-1! ").
  vm_compute. reflexivity.
Defined.

(** ** The EMA state of [recognize_text] *)

Lemma preserves_ret {A} (P : TextState -> Prop) (a : A) : preserves P (ret a).
Proof. intros st H. exact H. Qed.

Lemma preserves_raise {A} (P : TextState -> Prop) : preserves P (@raise A).
Proof. intros st H. exact H. Qed.

Lemma preserves_bind {A B} (P : TextState -> Prop) (m : M A) (f : A -> M B) :
  preserves P m -> (forall a, preserves P (f a)) -> preserves P (bind m f).
Proof.
  intros Hm Hf st H. unfold bind. specialize (Hm st H).
  destruct (m st) as [[a|] st']; simpl in *; [apply Hf|]; exact Hm.
Qed.

Lemma map_fst_aset {V} (k : string) (v : V) (d : list (string * V)) :
  alookup k d <> None -> map fst (aset k v d) = map fst d.
Proof.
  induction d as [|[k' v'] d IH]; simpl; intro H; [congruence|].
  destruct (String.eqb k k') eqn:E.
  - apply String.eqb_eq in E. subst. reflexivity.
  - simpl. f_equal. apply IH. exact H.
Qed.

Lemma is_value_change_valid_state (n : string) (v : Q) (st : TextState) :
  snd (_is_value_change_valid n v st) = st.
Proof.
  unfold _is_value_change_valid, bind, get, ret. simpl.
  destruct (alookup n (ema_values st)) as [[o|]|]; try reflexivity.
  destruct (Qeq_bool o 0); reflexivity.
Qed.

Lemma preserves_apply_ema_filter (n : string) (v : Q) :
  preserves ema_consistent (_apply_ema_filter n v).
Proof.
  intros st [Heq Hkeys].
  cbv beta iota zeta delta [_apply_ema_filter bind get get_item ret raise put].
  destruct (alookup n (ema_values st)) as [e|] eqn:Ee; [|split; assumption].
  match goal with |- context [if ?b then _ else _] => destruct b end.
  - destruct (alookup n (stable_values st)); split; assumption.
  - simpl. rewrite <- Heq. split; [reflexivity|].
    cbn [ema_values]. rewrite map_fst_aset; [exact Hkeys | congruence].
Qed.

Lemma preserves_filter_value (n : string) (o : option (Q + string)) :
  preserves ema_consistent (filter_value n o).
Proof.
  destruct o as [[v|s]|]; simpl; try apply preserves_ret.
  apply preserves_bind.
  - intros st H. rewrite is_value_change_valid_state. exact H.
  - intros [|]; [|apply preserves_ret].
    apply preserves_bind; [apply preserves_apply_ema_filter|]. intro. apply preserves_ret.
Qed.

Lemma preserves_zone_loop (nn : string -> option string) (nm : string -> option Q)
    (zones : list (string * zone_input)) :
  forall results, preserves ema_consistent (zone_loop nn nm results zones).
Proof.
  induction zones as [|[n z] zones IH]; intro results; simpl; [apply preserves_ret|].
  apply preserves_bind; [|intro; apply IH].
  intros st H. unfold zone_step.
  assert (Hp : preserves ema_consistent (process_zone nn nm n z)).
  { destruct z as [|small orig proc]; simpl; [apply preserves_raise|].
    destruct (combine_detections (choose_ocr small orig proc)) as [[c t] [|k]];
      [apply preserves_ret|].
    apply preserves_bind; [apply preserves_filter_value|]. intro. apply preserves_ret. }
  specialize (Hp st H). destruct (process_zone nn nm n z st) as [[r|] st']; exact Hp.
Qed.

(** X10: [ema_values] and [stable_values] stay equal, with the four zone names
    as keys, through any run of [recognize_text]. *)
Theorem recognize_text_ema_consistent (nn : string -> option string) (nm : string -> option Q)
    (reader_available : bool) (zones : list (string * zone_input)) (st : TextState) :
  ema_consistent st -> ema_consistent (snd (recognize_text nn nm reader_available zones st)).
Proof.
  intro H. unfold recognize_text. destruct zones as [|z zones]; [exact H|].
  destruct reader_available; [|exact H]. apply preserves_zone_loop. exact H.
Qed.

Lemma recognize_text_ema_consistent_witness :
  ema_consistent init_text_state /\
  ema_consistent (snd (recognize_text (fun _ => None) (fun _ => None) true
       [("pot_combined", ZoneRead false [] [("Pot 20", 9 # 10)])] init_text_state)).
Proof.
  split; [split; reflexivity|].
  apply recognize_text_ema_consistent. split; reflexivity.
Defined.

Lemma py_max_ge_r (a b : Q) : b <= py_max a b.
Proof. unfold py_max. destruct (Qltb a b) eqn:E; [apply Qle_refl | apply Qltb_false; exact E]. Qed.

Lemma Qdiv_le_denom (x d e : Q) : 0 <= x -> 0 < e -> e <= d -> x / d <= x / e.
Proof.
  intros Hx He Hd. unfold Qdiv. rewrite (Qmult_comm x), (Qmult_comm x).
  apply Qmult_le_compat_r; [|exact Hx].
  apply Qle_shift_inv_r; [apply (Qlt_le_trans _ _ _ He Hd)|].
  rewrite Qmult_comm. apply Qle_shift_div_l; [exact He|]. rewrite Qmult_1_l. exact Hd.
Qed.

Lemma relative_change_le (v e r : Q) :
  0 < e -> Qabs (v - e) / e <= r ->
  Qabs (v - e) / py_max (1 # 1000000000) (Qabs e) <= r.
Proof.
  intros He H. eapply Qle_trans; [|exact H]. apply Qdiv_le_denom.
  - apply Qabs_nonneg.
  - exact He.
  - apply (Qle_trans _ (Qabs e)); [apply Qle_Qabs | apply py_max_ge_r].
Qed.

Lemma Qeq_bool_pos (e : Q) : 0 < e -> Qeq_bool e 0 = false.
Proof.
  intro He. apply not_true_iff_false. intro H. apply Qeq_bool_iff in H.
  rewrite H in He. discriminate He.
Qed.

(** X11: A change of more than 20% but at most 30% from a positive EMA value
    passes the validity check, then the EMA filter reports the stable value
    and changes nothing. *)
Theorem filter_value_moderate_jump (n : string) (v e : Q) (st : TextState) :
  alookup n (ema_values st) = Some (Some e) ->
  alookup n (stable_values st) = Some (Some e) ->
  0 < e -> variation_threshold < Qabs (v - e) / e -> Qabs (v - e) / e <= max_value_change ->
  filter_value n (Some (inl v)) st = (Some (Some (inl e)), st).
Proof.
  intros He Hs Hpos Hlo Hhi.
  unfold filter_value, _is_value_change_valid.
  cbv beta iota zeta delta [bind get get_item ret raise put _apply_ema_filter]. rewrite He.
  rewrite (Qeq_bool_pos e Hpos).
  replace (Qle_bool _ max_value_change) with true
    by (symmetry; apply Qle_bool_iff; apply relative_change_le; assumption).
  rewrite He, (Qltb_lt 0 e Hpos), (Qltb_lt _ _ Hlo). simpl. rewrite Hs. simpl.
  rewrite (Qeq_bool_pos e Hpos). reflexivity.
Qed.

Lemma filter_value_moderate_jump_witness :
  filter_value "pot_combined" (Some (inl (25 # 2))) pot_at_10 = (Some (Some (inl 10)), pot_at_10).
Proof.
  apply (filter_value_moderate_jump "pot_combined" (25 # 2) 10 pot_at_10).
  - reflexivity.
  - reflexivity.
  - vm_compute. reflexivity.
  - vm_compute. reflexivity.
  - vm_compute. discriminate.
Defined.

(** X12: From an EMA value [e] that is 0, or positive with the new value within
    20% of it, the new EMA [0.15 v + 0.85 e] is reported and stored as
    both the EMA and the stable value. *)
Theorem filter_value_ema_update (n : string) (v e : Q) (st : TextState) :
  alookup n (ema_values st) = Some (Some e) ->
  (e == 0 \/ (0 < e /\ Qabs (v - e) / e <= variation_threshold)) ->
  let w := ema_alpha * v + (1 - ema_alpha) * e in
  filter_value n (Some (inl v)) st =
  (Some (Some (inl w)),
   mkTextState (aset n (Some w) (ema_values st)) (aset n (Some w) (stable_values st))).
Proof.
  intros He Hc w.
  unfold filter_value, _is_value_change_valid.
  cbv beta iota zeta delta [bind get get_item ret raise put _apply_ema_filter]. rewrite He.
  destruct Hc as [Hz | [Hpos Hle]].
  - replace (Qeq_bool e 0) with true by (symmetry; apply Qeq_bool_iff; exact Hz).
    rewrite He.
    replace (Qltb 0 e) with false.
    2:{ symmetry. apply not_true_iff_false. intro H. apply Qltb_true in H.
        rewrite Hz in H. discriminate H. }
    reflexivity.
  - rewrite (Qeq_bool_pos e Hpos).
    replace (Qle_bool _ max_value_change) with true.
    2:{ symmetry. apply Qle_bool_iff. apply relative_change_le; [exact Hpos|].
        eapply Qle_trans; [exact Hle | discriminate]. }
    rewrite He, (Qltb_lt 0 e Hpos).
    replace (Qltb variation_threshold (Qabs (v - e) / e)) with false.
    2:{ symmetry. apply not_true_iff_false. intro H. apply Qltb_true in H.
        exact (Qlt_not_le _ _ H Hle). }
    reflexivity.
Qed.

Lemma filter_value_ema_update_witness :
  filter_value "pot_combined" (Some (inl 11)) pot_at_10 =
  (Some (Some (inl (ema_alpha * 11 + (1 - ema_alpha) * 10))),
   mkTextState (aset "pot_combined" (Some (ema_alpha * 11 + (1 - ema_alpha) * 10)) (ema_values pot_at_10))
               (aset "pot_combined" (Some (ema_alpha * 11 + (1 - ema_alpha) * 10)) (stable_values pot_at_10))).
Proof.
  apply (filter_value_ema_update "pot_combined" 11 10 pot_at_10); [reflexivity|].
  right. split; vm_compute; [reflexivity | discriminate].
Defined.

(** X13: The first numeric reading of a zone is reported as is and becomes its
    EMA and stable value. *)
Theorem filter_value_first_reading (n : string) (v : Q) (st : TextState) :
  alookup n (ema_values st) = Some None ->
  filter_value n (Some (inl v)) st =
  (Some (Some (inl v)),
   mkTextState (aset n (Some v) (ema_values st)) (aset n (Some v) (stable_values st))).
Proof.
  intro He. unfold filter_value, _is_value_change_valid.
  cbv beta iota zeta delta [bind get get_item ret raise put _apply_ema_filter].
  rewrite He. cbv beta iota. rewrite He. reflexivity.
Qed.

Lemma filter_value_first_reading_witness :
  filter_value "hero_stack" (Some (inl 7)) init_text_state =
  (Some (Some (inl 7)),
   mkTextState (aset "hero_stack" (Some 7) (ema_values init_text_state))
               (aset "hero_stack" (Some 7) (stable_values init_text_state))).
Proof. apply filter_value_first_reading. reflexivity. Defined.

(** X14: A pot zone whose name differs from its state key only by case is read
    as a pot, then [_apply_ema_filter] raises [KeyError]: the zone always
    gets the empty result and the state is unchanged. *)
Theorem zone_step_pot_key_missing (nn : string -> option string) (nm : string -> option Q)
    (results : list (string * TextResult)) (n : string) (z : zone_input) (st : TextState) :
  lower n = "pot_combined" -> alookup n (ema_values st) = None ->
  zone_step nn nm results n z st = (Some (aset n empty_text_result results), st).
Proof.
  intros Hl Hk. unfold zone_step.
  destruct z as [|small orig proc]; [reflexivity|]. simpl.
  destruct (combine_detections (choose_ocr small orig proc)) as [[c t] [|k]]; [reflexivity|].
  unfold normalize_zone. rewrite Hl. simpl.
  unfold filter_value, _is_value_change_valid.
  cbv beta iota zeta delta [bind get get_item ret raise put _apply_ema_filter].
  rewrite Hk. cbv beta iota. rewrite Hk. reflexivity.
Qed.

Lemma zone_step_pot_key_missing_witness :
  zone_step (fun _ => None) (fun _ => None) [] "Pot_Combined"
    (ZoneRead false [] [("Pot 20", 9 # 10)]) init_text_state =
  (Some [("Pot_Combined", empty_text_result)], init_text_state).
Proof. apply zone_step_pot_key_missing; reflexivity. Defined.

(** ** Zone rectangles *)

Lemma crop_kept_inside (fh fw : Z) (r : Z * Z * Z * Z) :
  crop_kept fh fw r = true -> window_inside fh fw (crop_window fh fw r).
Proof.
  destruct r as [[[x0 y0] x1] y1]. unfold crop_kept, crop_window, slice_bounds, window_inside.
  intro H. apply andb_true_iff in H as [H H4]. apply andb_true_iff in H as [H H3].
  apply andb_true_iff in H as [H1 H2]. apply Z.ltb_lt in H1, H2. lia.
Qed.

Lemma crop_kept_rect (fh fw : Z) (r : Z * Z * Z * Z) :
  crop_kept fh fw r = true ->
  let '(x0, y0, x1, y1) := r in (x0 <? x1)%Z && (y0 <? y1)%Z = true.
Proof.
  destruct r as [[[x0 y0] x1] y1]. unfold crop_kept, crop_window, slice_bounds.
  intro H. apply andb_true_iff in H as [H H4]. apply andb_true_iff in H as [H H3].
  rewrite H4, H3. reflexivity.
Qed.

Lemma windows_inside_aset (fh fw : Z) (zones : list (string * (Z * Z * Z * Z))) (n : string)
    (r : Z * Z * Z * Z) :
  windows_inside fh fw zones -> crop_kept fh fw r = true ->
  windows_inside fh fw (aset n (crop_window fh fw r) zones).
Proof.
  intros Hz Hk k w. rewrite alookup_aset. destruct (String.eqb k n).
  - intro H. injection H as <-. apply crop_kept_inside. exact Hk.
  - apply Hz.
Qed.

(** X15: Every card ROI is a non-empty window inside the frame. *)
Theorem extract_card_rois_inside (base : coords_base) (tz : list (string * Q)) (fh fw : Z)
    (rois_config : list (string * list (string * Q))) :
  windows_inside fh fw (_extract_card_rois base tz fh fw rois_config).
Proof.
  unfold _extract_card_rois.
  assert (H0 : windows_inside fh fw []) by (intros k w H; discriminate).
  revert H0. generalize (@nil (string * (Z * Z * Z * Z))).
  induction rois_config as [|[n cfg] l IH]; intros acc Hacc; simpl; [exact Hacc|].
  apply IH. destruct (contains "card" (lower n)); [|exact Hacc].
  match goal with |- context [crop_kept fh fw ?r] =>
    destruct (crop_kept fh fw r) eqn:Ek; [apply windows_inside_aset|] end; assumption.
Qed.

(** X16: Every text zone crop is a non-empty window inside the frame. *)
Theorem extract_text_zones_inside (base : coords_base) (fh fw : Z)
    (rois_config : list (string * list (string * Q))) :
  windows_inside fh fw (_extract_text_zones base fh fw rois_config).
Proof.
  unfold _extract_text_zones. destruct base; [|intros k w H; discriminate].
  assert (H0 : windows_inside fh fw []) by (intros k w H; discriminate).
  revert H0. generalize (@nil (string * (Z * Z * Z * Z))).
  induction rois_config as [|[n cfg] l IH]; intros acc Hacc; cbn [fold_left]; [exact Hacc|].
  apply IH. destruct (text_zone_allowed n); [|exact Hacc].
  destruct (crop_kept fh fw (client_rect fh fw cfg)) eqn:Ek; [apply windows_inside_aset|]; assumption.
Qed.

(** X17: With distinct zone names in the configuration, each crop of
    [_extract_text_zones] is the window of the rectangle that
    [get_text_zone_rects] reports for the same zone. *)
Theorem text_zones_match_rects (base : coords_base) (fh fw : Z)
    (rois_config : list (string * list (string * Q))) :
  NoDup (map fst rois_config) ->
  zones_match_rects fh fw (_extract_text_zones base fh fw rois_config)
                          (get_text_zone_rects base fh fw rois_config).
Proof.
  intro Hnd. unfold _extract_text_zones, get_text_zone_rects.
  destruct base; [|intros k w H; discriminate].
  match goal with |- zones_match_rects _ _ (fold_left ?f1 _ _) (fold_left ?f2 _ _) =>
    assert (Hgen : forall l zones rects, NoDup (map fst l) ->
              (forall k, In k (map fst l) -> alookup k zones = None) ->
              zones_match_rects fh fw zones rects ->
              zones_match_rects fh fw (fold_left f1 l zones) (fold_left f2 l rects));
    [|apply Hgen; [exact Hnd | reflexivity | intros k w H; discriminate]] end.
  clear rois_config Hnd. intro rois_config.
  induction rois_config as [|[n cfg] l IH]; intros zones rects Hnd Hfresh Hzr; cbn [fold_left]; [exact Hzr|].
  inversion Hnd as [|? ? Hn Hnd']; subst.
  assert (Hzn : alookup n zones = None) by (apply Hfresh; left; reflexivity).
  apply IH; [exact Hnd'| |].
  1:{ intros k Hk. destruct (text_zone_allowed n); [|apply Hfresh; right; exact Hk].
      destruct (crop_kept fh fw (client_rect fh fw cfg)); [|apply Hfresh; right; exact Hk].
      rewrite alookup_aset. destruct (String.eqb k n) eqn:E.
      - apply String.eqb_eq in E. subst. contradiction.
      - apply Hfresh. right. exact Hk. }
  destruct (text_zone_allowed n); [|exact Hzr].
  pose proof (crop_kept_rect fh fw (client_rect fh fw cfg)) as Hrect.
  destruct (client_rect fh fw cfg) as [[[x0 y0] x1] y1] eqn:Er.
  destruct (crop_kept fh fw (x0, y0, x1, y1)) eqn:Ek.
  - rewrite (Hrect eq_refl). intros k w. rewrite !alookup_aset.
    destruct (String.eqb k n); [|apply Hzr].
    intro H. injection H as <-. exists (x0, y0, x1, y1). auto.
  - destruct ((x0 <? x1)%Z && (y0 <? y1)%Z); [|exact Hzr].
    intros k w Hk. rewrite alookup_aset. destruct (String.eqb k n) eqn:E.
    + apply String.eqb_eq in E. subst. congruence.
    + apply Hzr. exact Hk.
Qed.

Lemma text_zones_match_rects_witness :
  NoDup (map fst [("pot_combined", [("x", 1 # 4); ("y", 1 # 4); ("w", 1 # 2); ("h", 1 # 10)]);
                  ("hero_stack", [("x", 0); ("y", 0); ("w", 1 # 5); ("h", 1 # 5)])]) /\
  zones_match_rects 100 200
    (_extract_text_zones BaseClient 100 200
       [("pot_combined", [("x", 1 # 4); ("y", 1 # 4); ("w", 1 # 2); ("h", 1 # 10)]);
        ("hero_stack", [("x", 0); ("y", 0); ("w", 1 # 5); ("h", 1 # 5)])])
    (get_text_zone_rects BaseClient 100 200
       [("pot_combined", [("x", 1 # 4); ("y", 1 # 4); ("w", 1 # 2); ("h", 1 # 10)]);
        ("hero_stack", [("x", 0); ("y", 0); ("w", 1 # 5); ("h", 1 # 5)])]).
Proof.
  assert (Hnd : NoDup (map fst [("pot_combined", [("x", 1 # 4); ("y", 1 # 4); ("w", 1 # 2); ("h", 1 # 10)]);
                  ("hero_stack", [("x", 0); ("y", 0); ("w", 1 # 5); ("h", 1 # 5)])])).
  { simpl. constructor; [simpl; intros [H|[]]; discriminate|]. constructor; [intros []|constructor]. }
  split; [exact Hnd|]. apply text_zones_match_rects. exact Hnd.
Defined.

Lemma py_trunc_comp (p q : Q) : p == q -> py_trunc p = py_trunc q.
Proof.
  intro H. unfold py_trunc.
  assert (Hb : Qle_bool 0 p = Qle_bool 0 q).
  { destruct (Qle_bool 0 q) eqn:E.
    - apply Qle_bool_iff. apply Qle_bool_iff in E. rewrite H. exact E.
    - apply not_true_iff_false. intro E'. apply Qle_bool_iff in E'. rewrite H in E'.
      apply Qle_bool_iff in E'. congruence. }
  rewrite Hb. rewrite (Qfloor_comp p q H). rewrite (Qfloor_comp (- p) (- q)); [reflexivity|].
  rewrite H. reflexivity.
Qed.

Lemma table_rect_no_anchor (fh fw : Z) (cfg : list (string * Q)) :
  table_rect [] fh fw cfg = client_rect fh fw cfg.
Proof.
  unfold table_rect, client_rect. cbn [cfg_get alookup].
  f_equal; [f_equal; [f_equal|]|]; apply py_trunc_comp; ring.
Qed.

(** X18: Without a [table_zone] anchor, the table base crops the same card
    ROIs as the client base. *)
Theorem extract_card_rois_no_anchor (fh fw : Z) (rois_config : list (string * list (string * Q))) :
  _extract_card_rois BaseTable [] fh fw rois_config = _extract_card_rois BaseClient [] fh fw rois_config.
Proof.
  unfold _extract_card_rois. generalize (@nil (string * (Z * Z * Z * Z))).
  induction rois_config as [|[n cfg] l IH]; intro acc; cbn [fold_left]; [reflexivity|].
  rewrite table_rect_no_anchor. apply IH.
Qed.

(** ** Performance metrics *)

Lemma update_performance_metrics_fold (ts : list Q) (p : PerformanceMetrics) :
  total_calls (fold_left _update_performance_metrics ts p) = (total_calls p + Z.of_nat (List.length ts))%Z /\
  total_time (fold_left _update_performance_metrics ts p) = fold_left Qplus ts (total_time p).
Proof.
  revert p. induction ts as [|t ts IH]; intro p; simpl; [split; [lia|reflexivity]|].
  destruct (IH (_update_performance_metrics p t)) as [H1 H2]. rewrite H1, H2. simpl. split; [lia|reflexivity].
Qed.

(** X19: After [n >= 1] calls from a reset, the metrics hold the number of
    calls, the sum of the call times, their mean and the last time. *)
Theorem performance_metrics_after_calls (ts : list Q) (t : Q) :
  let p := fold_left _update_performance_metrics (app ts [t]) reset_performance_metrics in
  total_calls p = Z.of_nat (S (List.length ts)) /\
  total_time p = fold_left Qplus (app ts [t]) 0 /\
  avg_time p = total_time p / inject_Z (total_calls p) /\
  last_call_time p = t.
Proof.
  intro p. destruct (update_performance_metrics_fold (app ts [t]) reset_performance_metrics) as [H1 H2].
  fold p in H1, H2. simpl in H1, H2. rewrite length_app in H1. simpl in H1.
  split; [rewrite H1; lia|]. split; [exact H2|].
  unfold p. rewrite fold_left_app. simpl. split; reflexivity.
Qed.

(** ** Card labels *)

Lemma split_char_nonempty (sep : ascii) (s : string) : split_char sep s <> [].
Proof.
  destruct s as [|c s]; simpl; [discriminate|].
  destruct (Ascii.eqb c sep); [discriminate|]. destruct (split_char sep s); discriminate.
Qed.

Lemma split_first_cons (sep c : ascii) (s : string) :
  Ascii.eqb c sep = false -> split_first sep (String c s) = String c (split_first sep s).
Proof.
  intro E. unfold split_first. simpl. rewrite E.
  pose proof (split_char_nonempty sep s). destruct (split_char sep s); [congruence|reflexivity].
Qed.

Lemma split_first_idem (sep : ascii) (s : string) :
  split_first sep (split_first sep s) = split_first sep s.
Proof.
  induction s as [|c s IH]; [reflexivity|].
  destruct (Ascii.eqb c sep) eqn:E.
  - unfold split_first at 2 3. simpl. rewrite E. reflexivity.
  - rewrite (split_first_cons _ _ _ E), (split_first_cons _ _ _ E), IH. reflexivity.
Qed.

Lemma alookup_identity_map (k v : string) (l : list string) :
  alookup k (map (fun r => (r, r)) l) = Some v -> v = k.
Proof.
  induction l as [|x l IH]; simpl; [discriminate|].
  destruct (String.eqb k x) eqn:E; [|exact IH].
  intro H. injection H as <-. apply String.eqb_eq in E. congruence.
Qed.

(** X20: A template name is formatted as its part before the first [_], and
    formatting a formatted label changes nothing. *)
Theorem format_card_label_main_part (t : string) :
  _format_card_label t = split_first "_"%char t /\
  _format_card_label (_format_card_label t) = _format_card_label t.
Proof.
  assert (Hf : forall u, _format_card_label u = split_first "_"%char u).
  { intro u. unfold _format_card_label.
    destruct (String.eqb u EmptyString) eqn:E.
    - apply String.eqb_eq in E. subst. reflexivity.
    - destruct (alookup (split_first "_" u) rank_mapping) as [v|] eqn:Er.
      + exact (alookup_identity_map _ _ _ Er).
      + destruct (alookup (split_first "_" u) suit_mapping) as [v|] eqn:Es; [|reflexivity].
        exact (alookup_identity_map _ _ _ Es). }
  rewrite !Hf. split; [reflexivity | apply split_first_idem].
Qed.

(** ** [_calculate_confidence] *)

(** X21: With at least two labels and a non-negative exponential, the confidence
    is reported for a label of highest score and lies between 0 and 1. *)
Theorem calculate_confidence_top (exp : Q -> Q) (scores : scoremap) :
  (forall x, 0 <= exp x) -> (2 <= List.length scores)%nat ->
  exists l s c, _calculate_confidence exp scores = (Some l, c) /\ In (l, s) scores /\
    (forall p, In p scores -> snd p <= s) /\ 0 <= c /\ c <= 1.
Proof.
  intros Hexp Hlen. unfold _calculate_confidence.
  pose proof (sort_desc_perm scores) as Hp. pose proof (sort_desc_sorted scores) as Hs.
  apply (Sorted_StronglySorted score_ge_trans) in Hs.
  pose proof (Permutation_length Hp) as Hl.
  destruct (sort_desc scores) as [|[l1 s1] [|[l2 s2] rest]]; simpl in Hl; try lia.
  exists l1, s1, (1 / (1 + exp (- (confidence_alpha * s1 + confidence_beta * (s1 - s2))))).
  split; [reflexivity|]. split; [apply (Permutation_in _ Hp); left; reflexivity|].
  assert (He := Hexp (- (confidence_alpha * s1 + confidence_beta * (s1 - s2)))).
  assert (H1 : 1 <= 1 + exp (- (confidence_alpha * s1 + confidence_beta * (s1 - s2)))).
  { rewrite <- (Qplus_0_r 1) at 1. apply Qplus_le_r. exact He. }
  assert (Hd : 0 < 1 + exp (- (confidence_alpha * s1 + confidence_beta * (s1 - s2))))
    by (apply (Qlt_le_trans _ 1); [reflexivity | exact H1]).
  split; [|split].
  - intros p Hin. apply (Permutation_in _ (Permutation_sym Hp)) in Hin.
    destruct Hin as [<-|Hin]; [apply Qle_refl|].
    inversion Hs as [|? ? _ Hall]. rewrite Forall_forall in Hall. exact (Hall p Hin).
  - apply Qle_shift_div_l; [exact Hd|]. rewrite Qmult_0_l. discriminate.
  - apply Qle_shift_div_r; [exact Hd|]. rewrite Qmult_1_l. exact H1.
Qed.

Lemma calculate_confidence_top_witness :
  (forall x : Q, 0 <= (fun _ => 1) x) /\ (2 <= List.length [("A", 9 # 10); ("K", 1 # 2)])%nat /\
  exists l s c, _calculate_confidence (fun _ => 1) [("A", 9 # 10); ("K", 1 # 2)] = (Some l, c) /\
    In (l, s) [("A", 9 # 10); ("K", 1 # 2)] /\
    (forall p, In p [("A", 9 # 10); ("K", 1 # 2)] -> snd p <= s) /\ 0 <= c /\ c <= 1.
Proof.
  assert (H1 : forall x : Q, 0 <= (fun _ => 1) x) by (intro; discriminate).
  assert (H2 : (2 <= List.length [("A", 9 # 10); ("K", 1 # 2)])%nat) by (simpl; lia).
  split; [exact H1|]. split; [exact H2|].
  exact (calculate_confidence_top (fun _ => 1) _ H1 H2).
Defined.

(** ** [_detect_cards_change] *)

(** X22: Right after any call, a call with the same cards reports no change. *)
Theorem detect_cards_change_repeat (hash : list string -> Z) (last : option Z)
    (hero board : list CardResult) :
  fst (_detect_cards_change hash (snd (_detect_cards_change hash last hero board)) hero board) = false.
Proof.
  unfold _detect_cards_change.
  destruct last as [h|]; simpl; [|rewrite Z.eqb_refl; reflexivity].
  destruct (h =? hash (map card_key (app hero board)))%Z eqn:E; simpl; [rewrite E|rewrite Z.eqb_refl]; reflexivity.
Qed.

(** ** [_update_game_state] *)

Lemma GameState_eqb_refl (g : GameState) : GameState_eqb g g = true.
Proof. destruct g; reflexivity. Qed.

(** X23: Updating the street twice with the same board is updating it once. *)
Theorem update_game_state_idempotent (st : StreetState) (now now' : Q) (board : list CardResult) :
  _update_game_state (_update_game_state st now board) now' board = _update_game_state st now board.
Proof.
  unfold _update_game_state.
  destruct (visible_cards board) as [|[|[|[|[|[|n]]]]]];
    match goal with |- context [GameState_eqb ?a (game_state st)] =>
      destruct (GameState_eqb a (game_state st)) eqn:E end;
    try (rewrite GameState_eqb_refl in E; discriminate E);
    rewrite ?E; cbn [negb game_state]; rewrite ?E, ?GameState_eqb_refl; reflexivity.
Qed.

(** ** [_temporal_filtering] *)

(** X24: With two hero deques and five board deques, the filter raises
    [IndexError] exactly for the indices below [-2]. *)
Theorem temporal_filtering_index_error (bufs : TemporalBuffers) (card_results : list CardResult)
    (buffer_index : Z) :
  List.length (hero_buffers bufs) = 2%nat -> List.length (board_buffers bufs) = 5%nat ->
  (_temporal_filtering bufs card_results buffer_index = None <-> (buffer_index < -2)%Z).
Proof.
  intros Hh Hb. unfold _temporal_filtering. rewrite Hh, Hb.
  destruct (buffer_index <? 2)%Z eqn:E2.
  - apply Z.ltb_lt in E2. unfold py_index. cbn [Z.of_nat Pos.of_succ_nat Pos.succ].
    destruct (0 <=? buffer_index)%Z eqn:E0.
    + apply Z.leb_le in E0. replace (buffer_index <? 2)%Z with true by (symmetry; apply Z.ltb_lt; lia).
      destruct (tally _) as [[rv sv] tot]. split; [discriminate | lia].
    + apply Z.leb_gt in E0. destruct (0 <=? buffer_index + 2)%Z eqn:E1.
      * apply Z.leb_le in E1. destruct (tally _) as [[rv sv] tot]. split; [discriminate | lia].
      * apply Z.leb_gt in E1. split; [lia | reflexivity].
  - apply Z.ltb_ge in E2. unfold py_index.
    replace (0 <=? Z.max 0 (Z.min (buffer_index - 2) (Z.of_nat 5 - 1)))%Z with true
      by (symmetry; apply Z.leb_le; lia).
    replace (Z.max 0 (Z.min (buffer_index - 2) (Z.of_nat 5 - 1)) <? Z.of_nat 5)%Z with true
      by (symmetry; apply Z.ltb_lt; lia).
    destruct (tally _) as [[rv sv] tot]. split; [discriminate | lia].
Qed.

Lemma temporal_filtering_index_error_witness :
  _temporal_filtering init_temporal_buffers [] (-3) = None.
Proof. apply (temporal_filtering_index_error init_temporal_buffers [] (-3)); reflexivity. Defined.

Lemma skipn_repeat' {A} (x : A) (j n : nat) : skipn j (repeat x n) = repeat x (n - j).
Proof.
  revert n. induction j as [|j IH]; intro n; [rewrite Nat.sub_0_r; reflexivity|].
  destruct n; [reflexivity|]. simpl. apply IH.
Qed.

Lemma deque_append_repeat {A} (maxlen k : nat) (x : A) :
  deque_append maxlen (repeat x k) x = repeat x (S k - (S k - maxlen)).
Proof.
  unfold deque_append. replace (app (repeat x k) [x]) with (repeat x (S k)).
  - rewrite repeat_length. apply skipn_repeat'.
  - change [x] with (repeat x 1). rewrite <- repeat_app. f_equal. lia.
Qed.

Section TallyRepeat.

Variable c : CardResult.
Variables r s : string.
Hypothesis Hr : rank c = Some r.
Hypothesis Hs : suit c = Some s.
Hypothesis Hr_ne : r <> EmptyString.
Hypothesis Hs_ne : s <> EmptyString.
Hypothesis Hrc : 0 < rank_confidence c.
Hypothesis Hsc : 0 < suit_confidence c.

Lemma tally_step_c (rv sv : list (string * Q)) (tot : Q) :
  tally_step (rv, sv, tot) c =
  (add_vote rv r (rank_confidence c), add_vote sv s (suit_confidence c),
   tot + rank_confidence c + suit_confidence c).
Proof.
  unfold tally_step. rewrite Hr, Hs. unfold truthy_str.
  replace (String.eqb r EmptyString) with false by (symmetry; apply String.eqb_neq; exact Hr_ne).
  replace (String.eqb s EmptyString) with false by (symmetry; apply String.eqb_neq; exact Hs_ne).
  rewrite (Qltb_lt _ _ Hrc), (Qltb_lt _ _ Hsc). reflexivity.
Qed.

Lemma tally_repeat_from (j : nat) (a b tot : Q) :
  exists a' b' tot', fold_left tally_step (repeat c j) ([(r, a)], [(s, b)], tot) =
    ([(r, a')], [(s, b')], tot') /\
    tot' == tot + inject_Z (Z.of_nat j) * (rank_confidence c + suit_confidence c).
Proof.
  revert a b tot. induction j as [|j IH]; intros a b tot.
  - exists a, b, tot. split; [reflexivity|]. simpl. ring.
  - cbn [repeat fold_left]. rewrite tally_step_c. unfold add_vote. cbn [alookup aset].
    rewrite !String.eqb_refl. cbv beta iota.
    destruct (IH (a + rank_confidence c) (b + suit_confidence c)
                (tot + rank_confidence c + suit_confidence c)) as (a' & b' & t' & E & Ht).
    exists a', b', t'. split; [exact E|]. rewrite Ht.
    rewrite Nat2Z.inj_succ. unfold Z.succ. rewrite inject_Z_plus. ring.
Qed.

Lemma tally_repeat (m : nat) :
  exists a b tot, tally (repeat c (S m)) = ([(r, a)], [(s, b)], tot) /\
    tot == inject_Z (Z.of_nat (S m)) * (rank_confidence c + suit_confidence c).
Proof.
  change (tally (repeat c (S m))) with (fold_left tally_step (repeat c (S m)) ([], [], 0)).
  cbn [repeat fold_left]. rewrite tally_step_c. unfold add_vote. cbn [alookup aset].
  destruct (tally_repeat_from m (0 + rank_confidence c) (0 + suit_confidence c)
              (0 + rank_confidence c + suit_confidence c)) as (a & b & t & E & Ht).
  exists a, b, t. split; [exact E|]. rewrite Ht.
  rewrite Nat2Z.inj_succ. unfold Z.succ. rewrite inject_Z_plus. ring.
Qed.

End TallyRepeat.

(** X25: A hero deque that holds only copies of the card read in this frame
    yields that card with the sum of its rank and suit confidences as each
    of the three confidences. *)
Theorem temporal_filtering_sums_confidences (bufs : TemporalBuffers) (card_results : list CardResult)
    (i : nat) (c : CardResult) (k : nat) (r s : string) :
  List.length (hero_buffers bufs) = 2%nat -> (i < 2)%nat ->
  nth i (hero_buffers bufs) [] = repeat c k -> nth_error card_results i = Some c ->
  rank c = Some r -> suit c = Some s -> r <> EmptyString -> s <> EmptyString ->
  0 < rank_confidence c -> 0 < suit_confidence c ->
  exists res bufs', _temporal_filtering bufs card_results (Z.of_nat i) = Some (res, bufs') /\
    rank res = Some r /\ suit res = Some s /\
    rank_confidence res == rank_confidence c + suit_confidence c /\
    suit_confidence res == rank_confidence c + suit_confidence c /\
    combined_confidence res == rank_confidence c + suit_confidence c.
Proof.
  intros Hlen Hi Hbuf Hcr Hr Hs Hr_ne Hs_ne Hrc Hsc.
  unfold _temporal_filtering. rewrite Hlen.
  replace (Z.of_nat i <? 2)%Z with true by (symmetry; apply Z.ltb_lt; lia).
  unfold py_index.
  replace (0 <=? Z.of_nat i)%Z with true by (symmetry; apply Z.leb_le; lia).
  replace (Z.of_nat i <? Z.of_nat 2)%Z with true by (symmetry; apply Z.ltb_lt; lia).
  rewrite Nat2Z.id. cbv beta iota zeta. rewrite Hbuf.
  assert (Hil : (i < List.length card_results)%nat) by (apply nth_error_Some; congruence).
  replace (Z.of_nat i <? Z.of_nat (List.length card_results))%Z with true
    by (symmetry; apply Z.ltb_lt; lia).
  change (true && true) with true. cbv iota.
  rewrite (nth_error_nth _ _ _ Hcr).
  rewrite deque_append_repeat.
  replace (S k - (S k - temporal_buffer_size))%nat with (S (k - (S k - temporal_buffer_size)))
    by (unfold temporal_buffer_size; lia).
  set (m := (k - (S k - temporal_buffer_size))%nat).
  destruct (tally_repeat c r s Hr Hs Hr_ne Hs_ne Hrc Hsc m) as (a & b & tot & Ht & Htot).
  rewrite Ht. cbn [repeat].
  eexists _, _. split; [reflexivity|]. cbn [rank suit rank_confidence suit_confidence combined_confidence].
  assert (Havg : tot / inject_Z (Z.of_nat (List.length (c :: repeat c m))) ==
                 rank_confidence c + suit_confidence c).
  { rewrite Htot. change (List.length (c :: repeat c m)) with (S (List.length (repeat c m))).
    rewrite repeat_length. field.
    intro H. unfold Qeq, inject_Z in H. simpl in H. lia. }
  repeat split; try exact Havg.
Qed.

Lemma temporal_filtering_sums_confidences_witness :
  exists res bufs',
    _temporal_filtering
      (mkTemporalBuffers
         [repeat (mkCardResult (Some "A") (Some "h") (1 # 2) (1 # 4) 0 false [] []) 2; []]
         (repeat [] 5))
      [mkCardResult (Some "A") (Some "h") (1 # 2) (1 # 4) 0 false [] []; default_card]
      (Z.of_nat 0) = Some (res, bufs') /\
    rank res = Some "A" /\ suit res = Some "h" /\
    rank_confidence res == (1 # 2) + (1 # 4) /\
    suit_confidence res == (1 # 2) + (1 # 4) /\
    combined_confidence res == (1 # 2) + (1 # 4).
Proof.
  apply (temporal_filtering_sums_confidences _ _ 0
           (mkCardResult (Some "A") (Some "h") (1 # 2) (1 # 4) 0 false [] []) 2 "A" "h");
    try reflexivity; try discriminate; lia.
Defined.
